(** * Photo editor: the image adjustment pipeline, its task executor and
      its undo/redo histories.

    Shallow embedding of
    - the worker script of [image-processing-worker] (pixel stages, colour
      math, box blur) and its [executeImageOperation] message protocol,
    - [utils/image-processor.ts] (the [ImageProcessor] class, its
      main-thread fallback),
    - the history code of [components/image-editor-tools.tsx] and
      [components/pro-image-editor.tsx].

    JavaScript numbers are IEEE-754 binary64 values: they are modelled by
    Rocq's primitive floats, so every arithmetic step below rounds exactly
    as the source does.  A [Uint8ClampedArray] is a list of integers, each
    store going through the array's own conversion [ToUint8Clamp]. *)

From Stdlib Require Import ZArith Floats Uint63 Strings.String.
From stdpp Require Import base list.

#[local] Set Warnings "-inexact-float".

Open Scope Z_scope.

(** ** JavaScript numbers *)

Module JS.

#[local] Open Scope float_scope.

(** An integer as a Number.  Exact below 2^53, which covers every index,
    dimension and channel value used here. *)
Definition of_Z (z : Z) : float :=
  if (z <? 0)%Z then - of_uint63 (Uint63.of_Z (- z)) else of_uint63 (Uint63.of_Z z).

(** The signed mantissa and exponent of a finite number:
    the value is [m * 2^e]. *)
Definition floorZ_mant (m e : Z) : Z :=
  (if 0 <=? e then m * 2 ^ e else Z.shiftr m (- e))%Z.

(** [Math.floor] as an integer; [None] on NaN and the infinities. *)
Definition floorZ (x : float) : option Z :=
  match Prim2SF x with
  | S754_zero _ => Some 0%Z
  | S754_finite s m e => Some (floorZ_mant (if s then Z.neg m else Z.pos m) e)
  | _ => None
  end.

(** Numbers whose mantissa carries no fraction bit (binary exponent at
    least 0, so magnitude at least 2^52), zeros, infinities and NaN:
    [Math.floor] and [Math.round] return them unchanged. *)
Definition no_fraction (x : float) : bool :=
  match Prim2SF x with
  | S754_finite _ _ e => (0 <=? e)%Z
  | _ => true
  end.

Definition signed_zero (neg : bool) (z : Z) : float :=
  if ((z =? 0)%Z && neg)%bool then neg_zero else of_Z z.

Definition Math_floor (x : float) : float :=
  if no_fraction x then x
  else match floorZ x with
       | Some z => of_Z z
       | None => x
       end.

(** [Math.round]: nearest integer, ties towards +infinity. *)
Definition roundZ (x : float) : option Z :=
  match Prim2SF x with
  | S754_zero _ => Some 0%Z
  | S754_finite s m e =>
      let sm := if s then Z.neg m else Z.pos m in
      Some (if 0 <=? e then sm * 2 ^ e
            else Z.shiftr (sm + 2 ^ (- e - 1)) (- e))%Z
  | _ => None
  end.

Definition Math_round (x : float) : float :=
  if no_fraction x then x
  else match roundZ x with
       | Some z => signed_zero (get_sign x) z
       | None => x
       end.

(** [Math.max] and [Math.min] of two arguments.  Two numbers that are
    neither smaller nor larger than each other are equal, where +0 counts
    as larger than -0, or one of them is NaN, which is then the result. *)
Definition Math_max (x y : float) : float :=
  if x <? y then y
  else if y <? x then x
  else if x =? y then (if get_sign x then y else x)
  else nan.

Definition Math_min (x y : float) : float :=
  if y <? x then y
  else if x <? y then x
  else if x =? y then (if get_sign x then x else y)
  else nan.

Definition Math_sqrt (x : float) : float := PrimFloat.sqrt x.

(** [Math.pow(x, 2)]: the exponent 2 is the engine's [x * x] case. *)
Definition Math_pow2 (x : float) : float := x * x.

(** [x % 1]: the fractional part, with the sign of [x]. *)
Definition rem1 (x : float) : float :=
  match Prim2SF x with
  | S754_finite s m e =>
      if (0 <=? e)%Z then (if s then neg_zero else zero)
      else
        let fl := floorZ_mant (Z.pos m) e in
        let r := abs x - of_Z fl in
        if s then - r else r
  | S754_zero _ => x
  | _ => nan
  end.

(** The conversion applied by every store into a [Uint8ClampedArray]:
    NaN becomes 0, the value is clamped to [0,255] and rounded to the
    nearest integer, ties to even. *)
Definition round_half_even (m e : Z) : Z :=
  (if 0 <=? e then m * 2 ^ e
   else
     let f := Z.shiftr m (- e) in
     let rest := m - Z.shiftl f (- e) in
     let half := 2 ^ (- e - 1) in
     if rest <? half then f
     else if half <? rest then f + 1
     else if Z.even f then f else f + 1)%Z.

Definition clampZ (z : Z) : Z := Z.max 0 (Z.min 255 z).

Definition ToUint8Clamp (x : float) : Z :=
  match Prim2SF x with
  | S754_zero _ => 0%Z
  | S754_nan => 0%Z
  | S754_infinity s => if s then 0%Z else 255%Z
  | S754_finite s m e => clampZ (round_half_even (if s then Z.neg m else Z.pos m) e)
  end.

End JS.

(** ** Typed arrays, loops and image data *)

(** [data[i]] read as a number: an index outside the array reads
    [undefined], which every arithmetic operator turns into NaN. *)
Definition rd (d : list Z) (i : Z) : float :=
  if i <? 0 then nan
  else match d !! Z.to_nat i with
       | Some v => JS.of_Z v
       | None => nan
       end.

(** [data[i] = x]: the value is converted by the array; a store outside
    the array is ignored. *)
Definition wr (d : list Z) (i : Z) (x : float) : list Z :=
  if i <? 0 then d else <[Z.to_nat i := JS.ToUint8Clamp x]> d.

Definition len (d : list Z) : Z := Z.of_nat (length d).

(** [n] iterations of a loop whose counter starts at [i] and advances by
    [step]. *)
Fixpoint for_loop {T : Type} (n : nat) (i step : Z) (body : Z -> T -> T) (s : T) : T :=
  match n with
  | O => s
  | S n' => for_loop n' (i + step) step body (body i s)
  end.

(** [for (let i = lo; i < hi; i += step) body]. *)
Definition for_lt {T : Type} (lo hi step : Z) (body : Z -> T -> T) (s : T) : T :=
  for_loop (Z.to_nat ((hi - lo + step - 1) / step)) lo step body s.

(** An [ImageData]: the browser keeps [data.length = 4 * width * height];
    no definition or proof below depends on it. *)
Record ImageData := mkImageData {
  width : Z;
  height : Z;
  data : list Z
}.

(** [interface ImageAdjustments] of [image-processor.ts]. *)
Record ImageAdjustments := mkAdjustments {
  brightness : float;
  contrast : float;
  clarity : float;
  sharpen : float;
  saturation : float;
  vibrance : float;
  hue : float;
  temperature : float;
  blur : float;
  vignette : float;
  noise : float;
  filterType : string;
  rotation : float;
  flipX : bool;
  flipY : bool
}.

Definition defaultAdjustments : ImageAdjustments := {|
  brightness := 100;
  contrast := 100;
  clarity := 0;
  sharpen := 0;
  saturation := 100;
  vibrance := 0;
  hue := 0;
  temperature := 0;
  blur := 0;
  vignette := 0;
  noise := 0;
  filterType := "none";
  rotation := 0;
  flipX := false;
  flipY := false
|}.

Definition between (lo hi x : float) : bool := ((lo <=? x) && (x <=? hi))%float.

(** The filter names the editor offers. *)
Definition filter_names : list string :=
  ["none"; "grayscale"; "sepia"; "invert"; "warm"; "cool"; "vintage"; "dramatic";
   "noir"; "fade"]%string.

(** The ranges documented next to each field of [ImageAdjustments]. *)
Definition params_in_range (p : ImageAdjustments) : bool :=
  between 0 200 (brightness p) && between 0 200 (contrast p) &&
  between (-100) 100 (clarity p) && between 0 100 (sharpen p) &&
  between 0 200 (saturation p) && between (-100) 100 (vibrance p) &&
  between 0 360 (hue p) && between (-100) 100 (temperature p) &&
  between 0 100 (blur p) && between 0 100 (vignette p) &&
  between 0 100 (noise p) &&
  List.existsb (String.eqb (filterType p)) filter_names.

(** ** Colour math *)

Section ColourMath.
Open Scope float_scope.

Definition max3 (a b c : float) : float := JS.Math_max (JS.Math_max a b) c.
Definition min3 (a b c : float) : float := JS.Math_min (JS.Math_min a b) c.

Definition rgbToHsl (r g b : float) : float * float * float :=
  let r := r / 255 in
  let g := g / 255 in
  let b := b / 255 in
  let max := max3 r g b in
  let min := min3 r g b in
  let l := (max + min) / 2 in
  if max =? min then (0, 0, l)
  else
    let d := max - min in
    let s := if 0.5 <? l then d / (2 - max - min) else d / (max + min) in
    let h :=
      if max =? r then (g - b) / d + (if g <? b then 6 else 0)
      else if max =? g then (b - r) / d + 2
      else if max =? b then (r - g) / d + 4
      else nan in
    (h / 6, s, l).

Definition hue2rgb (p q t : float) : float :=
  let t := if t <? 0 then t + 1 else t in
  let t := if 1 <? t then t - 1 else t in
  if t <? 1 / 6 then p + (q - p) * 6 * t
  else if t <? 1 / 2 then q
  else if t <? 2 / 3 then p + (q - p) * (2 / 3 - t) * 6
  else p.

Definition hslToRgb (h s l : float) : float * float * float :=
  if s =? 0 then (l * 255, l * 255, l * 255)
  else
    let q := if l <? 0.5 then l * (1 + s) else l + s - l * s in
    let p := 2 * l - q in
    (hue2rgb p q (h + 1 / 3) * 255, hue2rgb p q h * 255, hue2rgb p q (h - 1 / 3) * 255).

(** [Math.max(0, Math.min(255, x))]. *)
Definition clip (x : float) : float := JS.Math_max 0 (JS.Math_min 255 x).

End ColourMath.


(** ** The worker's pixel stages *)

Section Stages.
Open Scope float_scope.

(** *** Box blur and unsharp mask *)

(** The running sums [r, g, b, a, count] of one blur window. *)
Definition window : Type := float * float * float * float * float.

Definition sample (tempData : list Z) (idx : Z) (w : window) : window :=
  let '(r, g, b, a, count) := w in
  (r + rd tempData idx, g + rd tempData (idx + 1)%Z,
   b + rd tempData (idx + 2)%Z, a + rd tempData (idx + 3)%Z, count + 1).

Definition write_average (idx : Z) (w : window) (d : list Z) : list Z :=
  let '(r, g, b, a, count) := w in
  let d := wr d idx (r / count) in
  let d := wr d (idx + 1)%Z (g / count) in
  let d := wr d (idx + 2)%Z (b / count) in
  wr d (idx + 3)%Z (a / count).

(** [for (let i = 0; i < size; i++) tempData[i] = data[i]] into a fresh,
    zero-filled array of [size] elements. *)
Definition copy_into_temp (size : Z) (d : list Z) : list Z :=
  for_lt 0 size 1 (fun i t => wr t i (rd d i)) (replicate (Z.to_nat size) 0%Z).

Definition horizontal_pass (w h radius : Z) (tempData d : list Z) : list Z :=
  for_lt 0 h 1 (fun y d =>
    for_lt 0 w 1 (fun x d =>
      let acc :=
        for_lt (- radius) (radius + 1) 1 (fun i acc =>
          let cx := Z.min (w - 1) (Z.max 0 (x + i)) in
          sample tempData ((y * w + cx) * 4)%Z acc) (0, 0, 0, 0, 0) in
      write_average ((y * w + x) * 4)%Z acc d) d) d.

Definition vertical_pass (w h radius : Z) (tempData d : list Z) : list Z :=
  for_lt 0 w 1 (fun x d =>
    for_lt 0 h 1 (fun y d =>
      let acc :=
        for_lt (- radius) (radius + 1) 1 (fun i acc =>
          let cy := Z.min (h - 1) (Z.max 0 (y + i)) in
          sample tempData ((cy * w + x) * 4)%Z acc) (0, 0, 0, 0, 0) in
      write_average ((y * w + x) * 4)%Z acc d) d) d.

Definition applyBoxBlur (d : list Z) (w h radius : Z) : list Z :=
  let size := (w * h * 4)%Z in
  let tempData := copy_into_temp size d in
  let d := horizontal_pass w h radius tempData d in
  let tempData := for_lt 0 size 1 (fun i t => wr t i (rd d i)) tempData in
  vertical_pass w h radius tempData d.

(** [applyUnsharpMask] works in place on the image's array; the blur is
    run on a copy. *)
Definition applyUnsharpMask (img : ImageData) (amount : float) : ImageData :=
  let d := data img in
  let blurredData :=
    for_lt 0 (len d) 1 (fun i t => wr t i (rd d i)) (replicate (length d) 0%Z) in
  let blurredData := applyBoxBlur blurredData (width img) (height img) 1 in
  let d :=
    for_lt 0 (len d) 4 (fun i d =>
      for_lt 0 3 1 (fun c d =>
        let idx := (i + c)%Z in
        let orig := rd d idx in
        let blur := rd blurredData idx in
        let diff := orig - blur in
        wr d idx (clip (orig + amount * diff))) d) d in
  mkImageData (width img) (height img) d.

(** *** Basic adjustments *)

Definition basic_pixel (p : ImageAdjustments) (i : Z) (d : list Z) : list Z :=
  let brightnessValue := brightness p / 100 in
  let contrastFactor := (259 * (contrast p + 255)) / (255 * (259 - contrast p)) in
  let r := rd d i * brightnessValue in
  let g := rd d (i + 1)%Z * brightnessValue in
  let b := rd d (i + 2)%Z * brightnessValue in
  let r := contrastFactor * (r - 128) + 128 in
  let g := contrastFactor * (g - 128) + 128 in
  let b := contrastFactor * (b - 128) + 128 in
  let '(r, g, b) :=
    if negb (clarity p =? 0) then
      let clarityAmount := clarity p / 100 in
      let avgColor := (r + g + b) / 3 in
      (r + (r - avgColor) * clarityAmount,
       g + (g - avgColor) * clarityAmount,
       b + (b - avgColor) * clarityAmount)
    else (r, g, b) in
  let d := wr d i (clip (JS.Math_round r)) in
  let d := wr d (i + 1)%Z (clip (JS.Math_round g)) in
  wr d (i + 2)%Z (clip (JS.Math_round b)).

Definition applyBasicAdjustments (img : ImageData) (p : ImageAdjustments) : ImageData :=
  let d := data img in
  let result := mkImageData (width img) (height img)
                  (for_lt 0 (len d) 4 (basic_pixel p) d) in
  if 0 <? sharpen p then applyUnsharpMask result (sharpen p / 100) else result.

(** *** Colour adjustments *)

Definition color_pixel (p : ImageAdjustments) (i : Z) (d : list Z) : list Z :=
  let saturationValue := saturation p / 100 in
  let vibranceValue := vibrance p / 100 in
  let tempAdjust := temperature p / 100 in
  let r := rd d i in
  let g := rd d (i + 1)%Z in
  let b := rd d (i + 2)%Z in
  let '(r, g, b) :=
    if negb (tempAdjust =? 0) then
      if 0 <? tempAdjust
      then (r + tempAdjust * 25, g + tempAdjust * 15, b - tempAdjust * 25)
      else (r + tempAdjust * 15, g + tempAdjust * 10, b - tempAdjust * 25)
    else (r, g, b) in
  let '(h, s, l) := rgbToHsl r g b in
  let h := if negb (hue p =? 0) then JS.rem1 (h + hue p / 360) else h in
  let s := if negb (saturation p =? 100) then s * saturationValue else s in
  let s :=
    if negb (vibrance p =? 0) then
      let sat := s in
      let adjustmentFactor := 1 + vibranceValue * (1 - sat) in
      JS.Math_max 0 (JS.Math_min 1 (sat * adjustmentFactor))
    else s in
  let '(r', g', b') := hslToRgb h s l in
  let d := wr d i (clip (JS.Math_round r')) in
  let d := wr d (i + 1)%Z (clip (JS.Math_round g')) in
  wr d (i + 2)%Z (clip (JS.Math_round b')).

Definition applyColorAdjustments (img : ImageData) (p : ImageAdjustments) : ImageData :=
  let d := data img in
  mkImageData (width img) (height img) (for_lt 0 (len d) 4 (color_pixel p) d).

(** *** Filter presets *)

(** One preset body: the three channel values read at [i], and the three
    values stored back. *)
Definition preset_loop (f : float -> float -> float -> float * float * float)
    (d : list Z) : list Z :=
  for_lt 0 (len d) 4 (fun i d =>
    let '(r, g, b) := f (rd d i) (rd d (i + 1)%Z) (rd d (i + 2)%Z) in
    let d := wr d i r in
    let d := wr d (i + 1)%Z g in
    wr d (i + 2)%Z b) d.

Definition grayscale (r g b : float) : float * float * float :=
  let avg := r * 0.299 + g * 0.587 + b * 0.114 in
  (avg, avg, avg).

Definition sepia (r g b : float) : float * float * float :=
  (JS.Math_min 255 (r * 0.393 + g * 0.769 + b * 0.189),
   JS.Math_min 255 (r * 0.349 + g * 0.686 + b * 0.168),
   JS.Math_min 255 (r * 0.272 + g * 0.534 + b * 0.131)).

Definition invert (r g b : float) : float * float * float :=
  (255 - r, 255 - g, 255 - b).

Definition vintage (r g b : float) : float * float * float :=
  (JS.Math_min 255 (r * 0.5 + g * 0.4 + b * 0.19 + 40),
   JS.Math_min 255 (r * 0.3 + g * 0.4 + b * 0.16 + 20),
   JS.Math_min 255 (r * 0.2 + g * 0.3 + b * 0.26)).

Definition cool (r g b : float) : float * float * float :=
  (JS.Math_max 0 (r * 0.9), JS.Math_max 0 g, JS.Math_min 255 (b * 1.2)).

Definition warm (r g b : float) : float * float * float :=
  (JS.Math_min 255 (r * 1.1 + 15), JS.Math_min 255 (g * 1.05), JS.Math_max 0 (b * 0.9)).

Definition dramatic (r g b : float) : float * float * float :=
  let '(h, s, l) := rgbToHsl r g b in
  let s := JS.Math_min 1 (s * 1.3) in
  let l := if 0.5 <? l then l + (l - 0.5) * 0.2 else l - (0.5 - l) * 0.2 in
  hslToRgb h s l.

Definition noir (r g b : float) : float * float * float :=
  let avg := r * 0.299 + g * 0.587 + b * 0.114 in
  let avg := if avg <? 127 then avg * 0.8 else avg * 1.2 in
  let avg := clip avg in
  (avg, avg, avg).

Definition fade (r g b : float) : float * float * float :=
  (JS.Math_min 255 (r * 0.9 + 20), JS.Math_min 255 (g * 0.9 + 20),
   JS.Math_min 255 (b * 0.9 + 30)).

(** The [filters] object: a name-keyed table of preset bodies.  A name
    that is not a preset finds no body to run.  This is the table of the
    object's own keys; the names an object literal inherits ([__proto__]
    and the like), for which [filters[filterType]] is not [undefined], are
    not among [filter_names], and the properties below that go through
    this table keep the name among [filter_names]. *)
Definition filters (name : string)
    : option (float -> float -> float -> float * float * float) :=
  if String.eqb name "grayscale" then Some grayscale
  else if String.eqb name "sepia" then Some sepia
  else if String.eqb name "invert" then Some invert
  else if String.eqb name "vintage" then Some vintage
  else if String.eqb name "cool" then Some cool
  else if String.eqb name "warm" then Some warm
  else if String.eqb name "dramatic" then Some dramatic
  else if String.eqb name "noir" then Some noir
  else if String.eqb name "fade" then Some fade
  else None.

Definition applyFilterPreset (img : ImageData) (name : string) : ImageData :=
  match filters name with
  | Some f => mkImageData (width img) (height img) (preset_loop f (data img))
  | None => img
  end.

(** *** Vignette *)

Definition vignette_pixel (w : Z) (centerX centerY amount : float) (x y : Z)
    (d : list Z) : list Z :=
  let dx := (JS.of_Z x - centerX) / centerX in
  let dy := (JS.of_Z y - centerY) / centerY in
  let distance := JS.Math_sqrt (dx * dx + dy * dy) in
  if 0.5 <? distance then
    let idx := ((y * w + x) * 4)%Z in
    let factor := 1 - JS.Math_min 1 (amount * JS.Math_pow2 ((distance - 0.5) * 2)) in
    let d := wr d idx (JS.Math_floor (rd d idx * factor)) in
    let d := wr d (idx + 1)%Z (JS.Math_floor (rd d (idx + 1)%Z * factor)) in
    wr d (idx + 2)%Z (JS.Math_floor (rd d (idx + 2)%Z * factor))
  else d.

Definition applyVignetteEffect (img : ImageData) (amount : float) : ImageData :=
  let w := width img in
  let h := height img in
  let centerX := JS.of_Z w / 2 in
  let centerY := JS.of_Z h / 2 in
  (* [maxDist] is computed by the source and never read. *)
  let maxDist := JS.Math_sqrt (centerX * centerX + centerY * centerY) in
  mkImageData w h
    (for_lt 0 h 1 (fun y d =>
       for_lt 0 w 1 (fun x d => vignette_pixel w centerX centerY amount x y d) d)
       (data img)).

(** *** Noise *)

(** [Math.random()] is the [k]-th element of a stream [random]; the loop
    state carries the number of draws made so far. *)
Definition noise_pixel (random : nat -> float) (amount : float) (i : Z)
    (st : list Z * nat) : list Z * nat :=
  let '(d, k) := st in
  if random k <? 0.5 then (d, S k)
  else
    let noise := (random (S k) - 0.5) * amount * 50 in
    let d := wr d i (clip (rd d i + noise)) in
    let d := wr d (i + 1)%Z (clip (rd d (i + 1)%Z + noise)) in
    (wr d (i + 2)%Z (clip (rd d (i + 2)%Z + noise)), S (S k)).

Definition applyNoiseEffect (random : nat -> float) (img : ImageData) (amount : float)
    : ImageData :=
  let d := data img in
  mkImageData (width img) (height img)
    (fst (for_lt 0 (len d) 4 (noise_pixel random amount) (d, O))).

(** *** Effects *)

(** [Math.max(1, Math.floor(blur / 20))] as a loop bound.  [blur] is a
    finite number (its range is 0..100), so the floor exists; the
    properties below that reach the blur keep [blur] in that range, where
    the source's loops over [-radius..radius] end. *)
Definition blurRadius (blur : float) : Z :=
  match JS.floorZ (blur / 20) with
  | Some z => Z.max 1 z
  | None => 1%Z
  end.

Definition applyEffects (random : nat -> float) (img : ImageData) (p : ImageAdjustments)
    : ImageData :=
  let result := mkImageData (width img) (height img) (data img) in
  let result :=
    if negb (String.eqb (filterType p) EmptyString) && negb (String.eqb (filterType p) "none")
    then applyFilterPreset result (filterType p) else result in
  let result :=
    if 0 <? vignette p then applyVignetteEffect result (vignette p / 100) else result in
  let result :=
    if 0 <? noise p then applyNoiseEffect random result (noise p / 100) else result in
  if 0 <? blur p then
    mkImageData (width result) (height result)
      (applyBoxBlur (data result) (width img) (height img) (blurRadius (blur p)))
  else result.

(** *** The worker's message handler and the orchestrator's worker path *)

Definition onmessage (random : nat -> float) (action : string) (img : ImageData)
    (p : ImageAdjustments) : ImageData + string :=
  if String.eqb action "basic-adjustments" then inl (applyBasicAdjustments img p)
  else if String.eqb action "color-adjustments" then inl (applyColorAdjustments img p)
  else if String.eqb action "effects" then inl (applyEffects random img p)
  else inr ("Unknown action: " ++ action)%string.

(** The three [executeImageOperation] calls of [_doProcessImage], on the
    pixels read back from the canvas. *)
Definition worker_stages (random : nat -> float) (img : ImageData) (p : ImageAdjustments)
    : ImageData :=
  let img := applyBasicAdjustments img p in
  let img := applyColorAdjustments img p in
  if negb (String.eqb (filterType p) "none") || (0 <? vignette p) || (0 <? noise p)
     || (0 <? blur p)
  then applyEffects random img p
  else img.

End Stages.

(** ** The main-thread fallback of [ImageProcessor] *)

Section MainThread.
Open Scope float_scope.

(** [applyVignette] paints a radial gradient through the canvas 2D
    context (centre to corner, transparent up to stop 0.5, multiply
    compositing); the rasteriser is the browser's. *)
Variable applyVignette : ImageData -> float -> ImageData.

Definition main_pixel (p : ImageAdjustments) (i : Z) (d : list Z) : list Z :=
  let brightness := brightness p / 100 in
  let contrastFactor := (259 * (contrast p + 255)) / (255 * (259 - contrast p)) in
  let r := rd d i * brightness in
  let g := rd d (i + 1)%Z * brightness in
  let b := rd d (i + 2)%Z * brightness in
  let r := contrastFactor * (r - 128) + 128 in
  let g := contrastFactor * (g - 128) + 128 in
  let b := contrastFactor * (b - 128) + 128 in
  let '(r, g, b) :=
    if negb (clarity p =? 0) then
      let clarityAmount := clarity p / 100 in
      let avgColor := (r + g + b) / 3 in
      (r + (r - avgColor) * clarityAmount,
       g + (g - avgColor) * clarityAmount,
       b + (b - avgColor) * clarityAmount)
    else (r, g, b) in
  let '(r, g, b) :=
    if negb (saturation p =? 100) then
      let gray := 0.2989 * r + 0.5870 * g + 0.1140 * b in
      let satFactor := saturation p / 100 in
      (gray + satFactor * (r - gray), gray + satFactor * (g - gray),
       gray + satFactor * (b - gray))
    else (r, g, b) in
  let d := wr d i (clip (JS.Math_round r)) in
  let d := wr d (i + 1)%Z (clip (JS.Math_round g)) in
  wr d (i + 2)%Z (clip (JS.Math_round b)).

(** [applyFilter]: a [switch] with three cases and no default. *)
Definition applyFilter (img : ImageData) (name : string) : ImageData :=
  if String.eqb name "grayscale"
  then mkImageData (width img) (height img) (preset_loop grayscale (data img))
  else if String.eqb name "sepia"
  then mkImageData (width img) (height img) (preset_loop sepia (data img))
  else if String.eqb name "invert"
  then mkImageData (width img) (height img) (preset_loop invert (data img))
  else img.

(** The pixels [processImageOnMainThread] leaves on the canvas, from the
    pixels it finds there. *)
Definition mainThreadPixels (img : ImageData) (p : ImageAdjustments) : ImageData :=
  let d := data img in
  let img := mkImageData (width img) (height img) (for_lt 0 (len d) 4 (main_pixel p) d) in
  let img :=
    if negb (String.eqb (filterType p) "none") then applyFilter img (filterType p)
    else img in
  if 0 <? vignette p then applyVignette img (vignette p / 100) else img.

End MainThread.

(** ** The [ImageProcessor] class *)

(** How a promise settles. *)
Inductive Outcome (A : Type) : Type :=
  | Resolved (a : A)
  | Rejected (msg : string).
Arguments Resolved {A} a.
Arguments Rejected {A} msg.

(** What a worker answers to one message: the result, or the error text.
    This is a worker that answers every message; a worker that has been
    terminated, and so never answers, is not a value of this type. *)
Definition Worker : Type := string -> ImageData -> ImageAdjustments -> ImageData + string.

Section Processor.

(** Services of the browser. *)
Variable Image : Type.
Variable naturalWidth naturalHeight : Image -> Z.
(** [loadImage]: [None] when the image's [onerror] fires. *)
Variable loadImage : string -> option Image.
(** [createOffscreenCanvas] followed by [getContext('2d')]: whether a
    context is obtained. *)
Variable getContext : bool.
(** [clearRect], the rotation and flip transform, [drawImage] of the
    source scaled to the canvas, and [getImageData]. *)
Variable drawTransformed : Image -> Z -> Z -> ImageAdjustments -> ImageData.
Variable canvasToDataURL : ImageData -> string.
Variable applyVignette : ImageData -> float -> ImageData.
(** [getWorker]: [None] when the worker cannot be created. *)
Variable getWorker : option Worker.

Record ImageProcessor := mkProcessor {
  sourceImage : option Image;
  canvas : option ImageData;
  editCanvas : option ImageData;
  ctx : bool;
  originalWidth : Z;
  originalHeight : Z;
  qualityFactor : float;
  worker : option Worker;
  adjustments : ImageAdjustments
}.

(** A freshly constructed instance. *)
Definition newProcessor : ImageProcessor :=
  mkProcessor None None None false 0 0 1 None defaultAdjustments.

Definition cleanup (st : ImageProcessor) : ImageProcessor :=
  mkProcessor None None None false 0 0 (qualityFactor st) (worker st) (adjustments st).

(** [Math.round(n * qualityFactor)] as a canvas dimension. *)
Definition scaled (n : Z) (q : float) : Z :=
  match JS.roundZ (JS.of_Z n * q)%float with
  | Some z => z
  | None => 0
  end.

Definition blank (w h : Z) : ImageData :=
  mkImageData w h (replicate (Z.to_nat (w * h * 4)) 0).

Definition initialize (imageDataUrl previewQuality : string) (st : ImageProcessor)
    : ImageProcessor * Outcome unit :=
  let st := cleanup st in
  let q := if String.eqb previewQuality "low" then 0.5%float
           else if String.eqb previewQuality "medium" then 0.75%float
           else 1%float in
  let wk := match getWorker with Some w => Some w | None => worker st end in
  let st := mkProcessor None None None false 0 0 q wk defaultAdjustments in
  match loadImage imageDataUrl with
  | None => (st, Rejected "Failed to load image")
  | Some img =>
      let ow := naturalWidth img in
      let oh := naturalHeight img in
      let sw := scaled ow q in
      let sh := scaled oh q in
      if getContext then
        (mkProcessor (Some img) (Some (drawTransformed img sw sh defaultAdjustments))
           (Some (blank sw sh)) true ow oh q wk defaultAdjustments,
         Resolved tt)
      else
        (mkProcessor (Some img) (Some (blank sw sh)) (Some (blank sw sh)) false ow oh q wk
           defaultAdjustments,
         Rejected "Failed to create canvas context")
  end.

Definition set_canvas (cv : ImageData) (st : ImageProcessor) : ImageProcessor :=
  mkProcessor (sourceImage st) (Some cv) (editCanvas st) (ctx st) (originalWidth st)
    (originalHeight st) (qualityFactor st) (worker st) (adjustments st).

Definition set_canvases (cv ed : ImageData) (st : ImageProcessor) : ImageProcessor :=
  mkProcessor (sourceImage st) (Some cv) (Some ed) (ctx st) (originalWidth st)
    (originalHeight st) (qualityFactor st) (worker st) (adjustments st).

Definition processImageOnMainThread (st : ImageProcessor) : ImageProcessor * option string :=
  match sourceImage st, canvas st, editCanvas st, ctx st with
  | Some _, Some cv, Some _, true =>
      if getContext then
        let out := mainThreadPixels applyVignette cv (adjustments st) in
        (set_canvases out out st, Some (canvasToDataURL out))
      else (st, None)
  | _, _, _, _ => (st, None)
  end.

(** The three awaited [executeImageOperation] calls; [inr] when one of
    them rejects. *)
Definition workerPath (w : Worker) (img : ImageData) (a : ImageAdjustments)
    : ImageData + string :=
  match w "basic-adjustments"%string img a with
  | inr e => inr e
  | inl img =>
      match w "color-adjustments"%string img a with
      | inr e => inr e
      | inl img =>
          if (negb (String.eqb (filterType a) "none") || (0 <? vignette a)
              || (0 <? noise a) || (0 <? blur a))%float
          then w "effects"%string img a
          else inl img
      end
  end.

Definition _doProcessImage (st : ImageProcessor) : ImageProcessor * option string :=
  match sourceImage st, canvas st, ctx st with
  | Some src, Some _, true =>
      let sw := scaled (originalWidth st) (qualityFactor st) in
      let sh := scaled (originalHeight st) (qualityFactor st) in
      let imageData := drawTransformed src sw sh (adjustments st) in
      let st := set_canvas imageData st in
      match worker st with
      | Some w =>
          match workerPath w imageData (adjustments st) with
          | inl out => (set_canvas out st, Some (canvasToDataURL out))
          | inr _ => processImageOnMainThread st
          end
      | None => processImageOnMainThread st
      end
  | _, _, _ => (st, None)
  end.

(** [processImage], for a call made while no other run is pending and
    left alone until it settles ([processingPromise] is [null] throughout,
    and nothing else writes the fields meanwhile). *)
Definition processImage (st : ImageProcessor) : ImageProcessor * Outcome (option string) :=
  match sourceImage st, canvas st, ctx st with
  | Some _, Some _, true =>
      let '(st, r) := _doProcessImage st in (st, Resolved r)
  | _, _, _ => (st, Resolved None)
  end.

(** [{ ...this.adjustments, ...newAdjustments }]: the caller's partial
    object is given as the update it performs on the record. *)
Definition updateAdjustments (newAdjustments : ImageAdjustments -> ImageAdjustments)
    (st : ImageProcessor) : ImageProcessor * Outcome (option string) :=
  let st := mkProcessor (sourceImage st) (canvas st) (editCanvas st) (ctx st)
              (originalWidth st) (originalHeight st) (qualityFactor st) (worker st)
              (newAdjustments (adjustments st)) in
  processImage st.

Definition resetAdjustments (st : ImageProcessor)
    : ImageProcessor * Outcome (option string) :=
  updateAdjustments (fun _ => defaultAdjustments) st.

Definition resize (w h : Z) (c : option ImageData) : option ImageData :=
  match c with
  | Some _ => Some (blank w h)
  | None => None
  end.

Definition generateFinalImage (st : ImageProcessor)
    : ImageProcessor * Outcome (option string) :=
  match sourceImage st with
  | None => (st, Resolved None)
  | Some src =>
      if negb getContext then (st, Resolved None)
      else
        let oldQualityFactor := qualityFactor st in
        let ow := originalWidth st in
        let oh := originalHeight st in
        let st1 := mkProcessor (sourceImage st) (resize ow oh (canvas st))
                     (resize ow oh (editCanvas st)) (ctx st) ow oh 1 (worker st)
                     (adjustments st) in
        let '(st2, r) := processImage st1 in
        let sw := scaled ow oldQualityFactor in
        let sh := scaled oh oldQualityFactor in
        let cv := match canvas st2 with
                  | Some _ =>
                      if ctx st2 then Some (drawTransformed src sw sh defaultAdjustments)
                      else Some (blank sw sh)
                  | None => None
                  end in
        (mkProcessor (sourceImage st2) cv (resize sw sh (editCanvas st2)) (ctx st2) ow oh
           oldQualityFactor (worker st2) (adjustments st2), r)
  end.

Definition destroy (st : ImageProcessor) : ImageProcessor :=
  let st := cleanup st in
  mkProcessor (sourceImage st) (canvas st) (editCanvas st) (ctx st) (originalWidth st)
    (originalHeight st) (qualityFactor st) None (adjustments st).

(** The pipeline is [Uninitialized] before [initialize] has loaded an
    image and after [destroy]. *)
Definition Uninitialized (st : ImageProcessor) : Prop := sourceImage st = None.

End Processor.

(** ** [executeImageOperation]: the message protocol with the worker *)

(** [operationId] is [Date.now().toString()]: the decimal text of an
    integer clock value, compared with [===].  Two such texts are equal
    exactly when the clock values are, so the id is kept as the integer. *)
Record Request := mkRequest {
  req_action : string;
  req_image : ImageData;
  req_params : ImageAdjustments;
  req_id : Z
}.

Record Response := mkResponse {
  resp_id : Z;
  resp_body : ImageData + string
}.

(** A registered [handleMessage] closure: the id it waits for and the
    promise it settles. *)
Record Listener := mkListener {
  operationId : Z;
  promise : nat
}.

Record Executor := mkExecutor {
  listeners : list Listener;
  inbox : list Request;
  settled : list (nat * Outcome ImageData);
  promises : nat
}.

Definition idle : Executor := mkExecutor [] [] [] 0.

(** [addEventListener] then [postMessage]; returns the new promise. *)
Definition executeImageOperation (now : Z) (action : string) (img : ImageData)
    (p : ImageAdjustments) (ex : Executor) : Executor * nat :=
  (mkExecutor (listeners ex ++ [mkListener now (promises ex)])
     (inbox ex ++ [mkRequest action img p now])
     (settled ex) (S (promises ex)),
   promises ex).

Definition settle (r : Response) : Outcome ImageData :=
  match resp_body r with
  | inl img => Resolved img
  | inr e => Rejected (if String.eqb e EmptyString then "Unknown error in image processing" else e)
  end.

(** One message event: every listener runs [handleMessage]; the ones
    whose id matches remove themselves and settle their promise. *)
Fixpoint dispatch (r : Response) (ls : list Listener)
    : list Listener * list (nat * Outcome ImageData) :=
  match ls with
  | [] => ([], [])
  | l :: ls =>
      let '(keep, done) := dispatch r ls in
      if operationId l =? resp_id r then (keep, (promise l, settle r) :: done)
      else (l :: keep, done)
  end.

Section WorkerLoop.

(** The worker's [onmessage]: the body of the answer to one request. *)
Variable respond : Request -> ImageData + string.

(** The worker handles the oldest posted message and its answer is
    dispatched on the main thread. *)
Definition worker_turn (ex : Executor) : Executor :=
  match inbox ex with
  | [] => ex
  | rq :: rest =>
      let '(keep, done) := dispatch (mkResponse (req_id rq) (respond rq)) (listeners ex) in
      mkExecutor keep rest (settled ex ++ done) (promises ex)
  end.

Fixpoint worker_turns (n : nat) (ex : Executor) : Executor :=
  match n with
  | O => ex
  | S n' => worker_turns n' (worker_turn ex)
  end.

End WorkerLoop.

(** Requests submitted back to back, before the worker answers any. *)
Fixpoint submit_all (rqs : list Request) (ex : Executor) : Executor :=
  match rqs with
  | [] => ex
  | rq :: rqs =>
      submit_all rqs
        (fst (executeImageOperation (req_id rq) (req_action rq) (req_image rq)
                (req_params rq) ex))
  end.

(** ** Undo/redo histories *)

(** [l.slice(0, e)] and [l.slice(-n)]. *)
Definition slice0 {A : Type} (e : Z) (l : list A) : list A :=
  if e <? 0 then take (Z.to_nat (Z.of_nat (length l) + e)) l else take (Z.to_nat e) l.

Definition slice_last {A : Type} (n : nat) (l : list A) : list A :=
  drop (length l - n) l.

(** The history of [ImageEditorTools]: the [history] and [historyIndex]
    state variables. *)
Module ImageEditorTools.

Record History := mkHistory {
  history : list string;
  historyIndex : Z
}.

Definition empty : History := mkHistory [] (-1).

(** The history update at the end of [applyChanges].  [applyChanges] is a
    closure of the render that created it: the [historyIndex] in
    [prev.slice(0, historyIndex + 1)] is the one of that render, given here
    as [rendered], while the updaters [setHistory(prev => ...)] and
    [setHistoryIndex(prev => prev + 1)] work on the state [st] as it is
    when they run.  The two indices agree when no undo or redo comes
    between the render and the run, as for the Apply button; the 300 ms
    timer of the realtime mode keeps the closure of the render that
    started it, whatever happens to the cursor meanwhile. *)
Definition applyChanges (rendered : Z) (newImageDataUrl : string) (st : History) : History :=
  let newHistory := slice0 (rendered + 1) (history st) ++ [newImageDataUrl] in
  mkHistory
    (if (10 <? length newHistory)%nat then slice_last 10 newHistory else newHistory)
    (historyIndex st + 1).

(** [handleUndo] and [handleRedo]: the new state and the image handed to
    [onImageChange], if any. *)
Definition handleUndo (st : History) : History * option string :=
  if 0 <? historyIndex st
  then (mkHistory (history st) (historyIndex st - 1),
        history st !! Z.to_nat (historyIndex st - 1))
  else (st, None).

Definition handleRedo (st : History) : History * option string :=
  if historyIndex st <? Z.of_nat (length (history st)) - 1
  then (mkHistory (history st) (historyIndex st + 1),
        if historyIndex st + 1 <? 0 then None
        else history st !! Z.to_nat (historyIndex st + 1))
  else (st, None).

End ImageEditorTools.

(** The history of [ProImageEditor]: [historyRef] and [historyIndexRef]. *)
Module ProImageEditor.

Record History := mkHistory {
  history : list string;
  historyIndex : Z
}.

Definition empty : History := mkHistory [] (-1).

(** [saveToHistory], given the data URL read from the canvas. *)
Definition saveToHistory (dataUrl : string) (st : History) : History :=
  let h :=
    if historyIndex st <? Z.of_nat (length (history st)) - 1
    then slice0 (historyIndex st + 1) (history st)
    else history st in
  let h := h ++ [dataUrl] in
  mkHistory h (Z.of_nat (length h) - 1).

Definition handleUndo (st : History) : History * option string :=
  if 0 <? historyIndex st
  then (mkHistory (history st) (historyIndex st - 1),
        history st !! Z.to_nat (historyIndex st - 1))
  else (st, None).

Definition handleRedo (st : History) : History * option string :=
  if historyIndex st <? Z.of_nat (length (history st)) - 1
  then (mkHistory (history st) (historyIndex st + 1),
        if historyIndex st + 1 <? 0 then None
        else history st !! Z.to_nat (historyIndex st + 1))
  else (st, None).

End ProImageEditor.

(** * Vocabulary of the properties, and the inputs they are tried on *)

(** A channel value. *)
Definition in_byte (z : Z) : Prop := 0 <= z <= 255.

(** [d] has the alpha bytes of [d0]: the elements at the indices 4k+3. *)
Definition same_alpha (d0 d : list Z) : Prop :=
  forall k : nat, d !! (4 * k + 3)%nat = d0 !! (4 * k + 3)%nat.

(** [Math.abs(x - y) <= 1]. *)
Definition within1 (x y : float) : bool := (abs (x - y) <=? 1)%float.

(** The round trip through HSL returns each channel within 1. *)
Definition round_trip_ok (r g b : float) : bool :=
  let '(h, s, l) := rgbToHsl r g b in
  let '(r', g', b') := hslToRgb h s l in
  within1 r' r && within1 g' g && within1 b' b.

(** The integers 0..255. *)
Definition channel_values : list Z := List.map Z.of_nat (seq 0 256).

(** The 256 channel values as numbers. *)
Definition channel_numbers : list float :=
  Eval vm_compute in List.map JS.of_Z channel_values.

(** The listeners registered for the requests [rqs], the first of which
    got promise [k]. *)
Fixpoint listeners_of (k : nat) (rqs : list Request) : list Listener :=
  match rqs with
  | [] => []
  | rq :: rqs => mkListener (req_id rq) k :: listeners_of (S k) rqs
  end.

(** What each request of [rqs] is answered, the first promise being [k]. *)
Fixpoint outcomes (respond : Request -> ImageData + string) (k : nat) (rqs : list Request)
    : list (nat * Outcome ImageData) :=
  match rqs with
  | [] => []
  | rq :: rqs =>
      (k, settle (mkResponse (req_id rq) (respond rq))) :: outcomes respond (S k) rqs
  end.

(** What the basic adjustments compute for one channel at brightness 100,
    contrast 0 and clarity 0. *)
Definition neutral_channel (v : float) : float :=
  clip (JS.Math_round ((259 * (0 + 255)) / (255 * (259 - 0)) * (v * (100 / 100) - 128) + 128)%float).

(** One-pixel images, and a white image of any size. *)
Definition grey100 : ImageData := mkImageData 1 1 [100; 100; 100; 255].
Definition orange : ImageData := mkImageData 1 1 [200; 100; 50; 255].
Definition white (w h : Z) : ImageData :=
  mkImageData w h (replicate (Z.to_nat (w * h * 4)) 255).

(** [{ ...p, hue: h }] and the like. *)
Definition with_hue (h : float) (p : ImageAdjustments) : ImageAdjustments :=
  mkAdjustments (brightness p) (contrast p) (clarity p) (sharpen p) (saturation p)
    (vibrance p) h (temperature p) (blur p) (vignette p) (noise p) (filterType p)
    (rotation p) (flipX p) (flipY p).

Definition with_contrast (c : float) (p : ImageAdjustments) : ImageAdjustments :=
  mkAdjustments (brightness p) c (clarity p) (sharpen p) (saturation p)
    (vibrance p) (hue p) (temperature p) (blur p) (vignette p) (noise p) (filterType p)
    (rotation p) (flipX p) (flipY p).

Definition with_filter (f : string) (p : ImageAdjustments) : ImageAdjustments :=
  mkAdjustments (brightness p) (contrast p) (clarity p) (sharpen p) (saturation p)
    (vibrance p) (hue p) (temperature p) (blur p) (vignette p) (noise p) f
    (rotation p) (flipX p) (flipY p).

(** A [Math.random] that always returns 0.75. *)
Definition steady (k : nat) : float := 0.75%float.

(** Three requests with the ids 1, 2 and 3, and the worker that serves
    them. *)
Definition basic_request (id : Z) (img : ImageData) : Request :=
  mkRequest "basic-adjustments" img (with_contrast 0 defaultAdjustments) id.

Definition three_requests : list Request :=
  [basic_request 1 grey100; basic_request 2 orange; basic_request 3 (white 1 1)].

Definition worker_respond (rq : Request) : ImageData + string :=
  onmessage steady (req_action rq) (req_image rq) (req_params rq).

(** Eleven data URLs. *)
Definition eleven : list string :=
  ["s0"; "s1"; "s2"; "s3"; "s4"; "s5"; "s6"; "s7"; "s8"; "s9"; "s10"]%string.

(** In-range parameters that switch every operation on. *)
Definition busy : ImageAdjustments :=
  mkAdjustments 150 120 30 40 160 (-20) 90 35 45 80 60 "dramatic" 0 false false.

(** The distance the vignette measures from the centre to pixel (x, y):
    each axis is divided by its own half-extent. *)
Definition vignette_distance (w h x y : Z) : float :=
  let centerX := (JS.of_Z w / 2)%float in
  let centerY := (JS.of_Z h / 2)%float in
  let dx := ((JS.of_Z x - centerX) / centerX)%float in
  let dy := ((JS.of_Z y - centerY) / centerY)%float in
  JS.Math_sqrt (dx * dx + dy * dy)%float.

(** Whether pixel (x, y) of a [w] by [h] image lies within half the
    centre-to-corner distance of the centre (w/2, h/2): the comparison
    of the squared distances, multiplied by 16. *)
Definition within_half_radius (w h x y : Z) : bool :=
  4 * ((2 * x - w) ^ 2 + (2 * y - h) ^ 2) <=? w ^ 2 + h ^ 2.

(** ** More of the code, and the vocabulary of its properties *)

(** A loop body that reads the three colour bytes of the pixel that starts
    at [i], computes [F] on them and stores the three results. *)
Definition px_body (F : float -> float -> float -> float * float * float) (i : Z)
    (d : list Z) : list Z :=
  let '(r, g, b) := F (rd d i) (rd d (i + 1)) (rd d (i + 2)) in
  wr (wr (wr d i r) (i + 1) g) (i + 2) b.

(** The pixels of an array, each handled on its own: four bytes at a time,
    and what is left at the end. *)
Fixpoint map_px (F : float -> float -> float -> float * float * float) (d : list Z)
    : list Z :=
  match d with
  | r :: g :: b :: a :: rest => px_body F 0 [r; g; b; a] ++ map_px F rest
  | tail => px_body F 0 tail
  end.

(** Pixel [k] of an array: its bytes 4k .. 4k+3. *)
Definition pixel_at (k : nat) (d : list Z) : list Z := take 4 (drop (4 * k) d).

(** The three numbers [applyBasicAdjustments] stores for one pixel. *)
Definition basic_channels (p : ImageAdjustments) (r g b : float) : float * float * float :=
  let brightnessValue := (brightness p / 100)%float in
  let contrastFactor := ((259 * (contrast p + 255)) / (255 * (259 - contrast p)))%float in
  let r := (r * brightnessValue)%float in
  let g := (g * brightnessValue)%float in
  let b := (b * brightnessValue)%float in
  let r := (contrastFactor * (r - 128) + 128)%float in
  let g := (contrastFactor * (g - 128) + 128)%float in
  let b := (contrastFactor * (b - 128) + 128)%float in
  let '(r, g, b) :=
    if negb (clarity p =? 0)%float then
      let clarityAmount := (clarity p / 100)%float in
      let avgColor := ((r + g + b) / 3)%float in
      ((r + (r - avgColor) * clarityAmount)%float,
       (g + (g - avgColor) * clarityAmount)%float,
       (b + (b - avgColor) * clarityAmount)%float)
    else (r, g, b) in
  (clip (JS.Math_round r), clip (JS.Math_round g), clip (JS.Math_round b)).

(** The three numbers [applyColorAdjustments] stores for one pixel. *)
Definition color_channels (p : ImageAdjustments) (r g b : float) : float * float * float :=
  let saturationValue := (saturation p / 100)%float in
  let vibranceValue := (vibrance p / 100)%float in
  let tempAdjust := (temperature p / 100)%float in
  let '(r, g, b) :=
    if negb (tempAdjust =? 0)%float then
      if (0 <? tempAdjust)%float
      then ((r + tempAdjust * 25)%float, (g + tempAdjust * 15)%float,
            (b - tempAdjust * 25)%float)
      else ((r + tempAdjust * 15)%float, (g + tempAdjust * 10)%float,
            (b - tempAdjust * 25)%float)
    else (r, g, b) in
  let '(h, s, l) := rgbToHsl r g b in
  let h := if negb (hue p =? 0)%float then JS.rem1 (h + hue p / 360)%float else h in
  let s := if negb (saturation p =? 100)%float then (s * saturationValue)%float else s in
  let s :=
    if negb (vibrance p =? 0)%float then
      let sat := s in
      let adjustmentFactor := (1 + vibranceValue * (1 - sat))%float in
      JS.Math_max 0 (JS.Math_min 1 (sat * adjustmentFactor)%float)
    else s in
  let '(r', g', b') := hslToRgb h s l in
  (clip (JS.Math_round r'), clip (JS.Math_round g'), clip (JS.Math_round b')).

(** The states an executor can reach: calls of [executeImageOperation] and
    answers of a worker, in any order; each answer may come from a
    different [respond]. *)
Inductive reachable : Executor -> Prop :=
  | reach_idle : reachable idle
  | reach_call (ex : Executor) (now : Z) (action : string) (img : ImageData)
      (p : ImageAdjustments) :
      reachable ex -> reachable (fst (executeImageOperation now action img p ex))
  | reach_answer (ex : Executor) (respond : Request -> ImageData + string) :
      reachable ex -> reachable (worker_turn respond ex).

(** The promises an executor still waits on, and the ones it has settled. *)
Definition pending (ex : Executor) : list nat := List.map promise (listeners ex).
Definition settled_promises (ex : Executor) : list nat := List.map fst (settled ex).

Section ProcessorVocabulary.

Variable Image : Type.


(** What processing must not touch: everything but the canvases. *)
Definition settings (st : ImageProcessor Image)
    : option Image * Z * Z * float * option Worker * ImageAdjustments * bool :=
  (sourceImage Image st, originalWidth Image st, originalHeight Image st,
   qualityFactor Image st, worker Image st, adjustments Image st, ctx Image st).

Definition without_worker (st : ImageProcessor Image) : ImageProcessor Image :=
  mkProcessor Image (sourceImage Image st) (canvas Image st) (editCanvas Image st)
    (ctx Image st) (originalWidth Image st) (originalHeight Image st) (qualityFactor Image st)
    None (adjustments Image st).

Definition with_worker (w : Worker) (st : ImageProcessor Image) : ImageProcessor Image :=
  mkProcessor Image (sourceImage Image st) (canvas Image st) (editCanvas Image st)
    (ctx Image st) (originalWidth Image st) (originalHeight Image st) (qualityFactor Image st)
    (Some w) (adjustments Image st).

End ProcessorVocabulary.

(** The cursor of [ProImageEditor] points at an entry, or nothing has been
    saved yet. *)
Definition cursor_ok (st : ProImageEditor.History) : Prop :=
  (ProImageEditor.history st = [] /\ ProImageEditor.historyIndex st = -1) \/
  0 <= ProImageEditor.historyIndex st < Z.of_nat (length (ProImageEditor.history st)).

(** ** [simple-image-processor]: the pixel path behind [applyChanges] *)

Module SimpleImageProcessor.

(** [interface FilterOptions]. *)
Record FilterOptions := mkFilterOptions {
  brightness : float;
  contrast : float;
  saturation : float;
  filter : string
}.

Definition applyFilterToPixel (filter : string) (r g b : float) : float * float * float :=
  if String.eqb filter "grayscale" then
    let gray := (0.2989 * r + 0.5870 * g + 0.1140 * b)%float in
    (gray, gray, gray)
  else if String.eqb filter "sepia" then
    (JS.Math_min 255 (r * 0.393 + g * 0.769 + b * 0.189)%float,
     JS.Math_min 255 (r * 0.349 + g * 0.686 + b * 0.168)%float,
     JS.Math_min 255 (r * 0.272 + g * 0.534 + b * 0.131)%float)
  else if String.eqb filter "invert" then
    ((255 - r)%float, (255 - g)%float, (255 - b)%float)
  else if String.eqb filter "warm" then
    (JS.Math_min 255 (r * 1.1)%float, JS.Math_min 255 (g * 1.05)%float,
     JS.Math_max 0 (b * 0.9)%float)
  else if String.eqb filter "cool" then
    (JS.Math_max 0 (r * 0.9)%float, JS.Math_max 0 (g * 0.95)%float,
     JS.Math_min 255 (b * 1.1)%float)
  else if String.eqb filter "vintage" then
    (JS.Math_min 255 (r * 0.9 + 40)%float, JS.Math_min 255 (g * 0.8 + 20)%float,
     JS.Math_min 255 (b * 0.7 + 10)%float)
  else (r, g, b).

(** The three numbers the loop of [applyWithPixelManipulation] stores for
    one pixel. *)
Definition pixel_channels (options : FilterOptions) (r g b : float)
    : float * float * float :=
  let '(r, g, b) :=
    if negb (brightness options =? 1)%float
    then ((r * brightness options)%float, (g * brightness options)%float,
          (b * brightness options)%float)
    else (r, g, b) in
  let '(r, g, b) :=
    if negb (contrast options =? 1)%float then
      let factor := ((259 * (contrast options * 255 + 255))
                     / (255 * (259 - contrast options * 255)))%float in
      ((factor * (r - 128) + 128)%float, (factor * (g - 128) + 128)%float,
       (factor * (b - 128) + 128)%float)
    else (r, g, b) in
  let '(r, g, b) :=
    if negb (saturation options =? 1)%float then
      let gray := (0.2989 * r + 0.5870 * g + 0.1140 * b)%float in
      ((gray + saturation options * (r - gray))%float,
       (gray + saturation options * (g - gray))%float,
       (gray + saturation options * (b - gray))%float)
    else (r, g, b) in
  let '(r, g, b) :=
    if negb (String.eqb (filter options) "none")
    then applyFilterToPixel (filter options) r g b
    else (r, g, b) in
  (clip (JS.Math_round r), clip (JS.Math_round g), clip (JS.Math_round b)).

(** The pixels [applyWithPixelManipulation] puts back, from the pixels
    drawn on the destination canvas. *)
Definition applyWithPixelManipulation (options : FilterOptions) (img : ImageData)
    : ImageData :=
  let d := data img in
  mkImageData (width img) (height img)
    (for_lt 0 (len d) 4 (px_body (pixel_channels options)) d).

End SimpleImageProcessor.

(** The options [applyChanges] passes for its slider values. *)
Definition editorOptions (brightness contrast saturation : float) (filter : string)
    : SimpleImageProcessor.FilterOptions :=
  SimpleImageProcessor.mkFilterOptions (brightness / 100)%float (contrast / 100)%float
    (saturation / 100)%float filter.

(** The rotate buttons: [(r - 90) % 360], [(r + 90) % 360] and
    [(prev + degrees) % 360], on whole degrees. *)
Definition rotateLeft (r : Z) : Z := Z.rem (r - 90) 360.
Definition rotateRight (r : Z) : Z := Z.rem (r + 90) 360.
Definition handleRotateBy (degrees prev : Z) : Z := Z.rem (prev + degrees) 360.

(** What [clip (Math.round v)] stores. *)
Definition rounded (v : float) : float := clip (JS.Math_round v).

(** An array of [n] pixels, all equal to (r, g, b, a). *)
Fixpoint uniform (r g b a : Z) (n : nat) : list Z :=
  match n with
  | O => []
  | S n' => r :: g :: b :: a :: uniform r g b a n'
  end.

(** The sum and the count a blur window holds after [k] samples of the
    value [v]. *)
Definition window_sum (v : Z) (k : nat) : float :=
  Nat.iter k (fun s => (s + JS.of_Z v)%float) 0%float.

Definition window_count (k : nat) : float := Nat.iter k (fun c => (c + 1)%float) 0%float.

(** The radii [applyEffects] can ask for when [blur] is within 0..100, and
    the radius of the unsharp mask. *)
Definition effect_radii : list Z := [1; 2; 3; 4; 5].

(** A two-pixel image, a ready processor over a one-image browser, and a
    worker that always fails. *)
Definition two_pixels : ImageData := mkImageData 2 1 [200; 100; 50; 255; 10; 20; 30; 40].

Definition ready_processor : ImageProcessor unit :=
  mkProcessor unit (Some tt) (Some grey100) (Some grey100) true 1 1 1
    (Some (onmessage steady)) defaultAdjustments.

Definition broken_worker : Worker := fun _ _ _ => inr "worker is down"%string.

Definition ten : list string :=
  ["s0"; "s1"; "s2"; "s3"; "s4"; "s5"; "s6"; "s7"; "s8"; "s9"]%string.

(** * Properties *)

(** ** JavaScript numbers, on examples *)

Example Math_floor_ex :
  JS.Math_floor 244.8 = 244%float /\ JS.Math_floor (-0.2) = (-1)%float /\
  JS.Math_floor 7 = 7%float.
Proof. repeat split; reflexivity. Qed.

Example Math_round_ex :
  JS.Math_round 64.5 = 65%float /\ JS.Math_round (-2.5) = (-2)%float /\
  JS.Math_round 0.49999999999999994 = 0%float /\ JS.Math_round 64.4 = 64%float.
Proof. repeat split; reflexivity. Qed.

Example ToUint8Clamp_ex :
  JS.ToUint8Clamp 64.5 = 64 /\ JS.ToUint8Clamp 65.5 = 66 /\ JS.ToUint8Clamp 64.51 = 65 /\
  JS.ToUint8Clamp (-3) = 0 /\ JS.ToUint8Clamp 300.2 = 255 /\ JS.ToUint8Clamp nan = 0 /\
  JS.ToUint8Clamp infinity = 255.
Proof. repeat split; reflexivity. Qed.

Example rem1_ex : JS.rem1 1.25 = 0.25%float /\ JS.rem1 (-1.25) = (-0.25)%float.
Proof. repeat split; reflexivity. Qed.

Example Math_max_ex :
  JS.Math_max 0 nan = nan /\ JS.Math_max 3 5 = 5%float /\ JS.Math_min 255 300 = 255%float.
Proof. repeat split; reflexivity. Qed.

Example rgbToHsl_ex :
  rgbToHsl 255 0 0 = (0, 1, 0.5)%float /\ rgbToHsl 128 128 128 = (0, 0, 128 / 255)%float.
Proof. repeat split; reflexivity. Qed.

Example applyBoxBlur_ex :
  applyBoxBlur [0; 0; 0; 255; 90; 90; 90; 255; 30; 30; 30; 255] 3 1 1
  = [30; 30; 30; 255; 40; 40; 40; 255; 50; 50; 50; 255].
Proof. vm_compute. reflexivity. Qed.

(** ** Loops *)

Lemma for_loop_ind {T : Type} (P : T -> Prop) (body : Z -> T -> T) (step : Z) (n : nat) :
  forall (i : Z) (s : T),
    P s ->
    (forall (m : nat) (s : T), (m < n)%nat -> P s -> P (body (i + Z.of_nat m * step) s)) ->
    P (for_loop n i step body s).
Proof.
  induction n as [|n IH]; intros i s Hs Hbody; simpl; [exact Hs|].
  apply IH.
  - replace i with (i + Z.of_nat 0 * step) at 1 by lia.
    apply Hbody; [lia | exact Hs].
  - intros m s' Hm Hs'.
    replace (i + step + Z.of_nat m * step) with (i + Z.of_nat (S m) * step) by lia.
    apply Hbody; [lia | exact Hs'].
Qed.

Lemma for_lt_ind {T : Type} (P : T -> Prop) (body : Z -> T -> T) (lo hi step : Z) (s : T) :
  P s ->
  (forall (m : nat) (s : T), P s -> P (body (lo + Z.of_nat m * step) s)) ->
  P (for_lt lo hi step body s).
Proof.
  intros Hs Hbody. unfold for_lt. apply for_loop_ind; [exact Hs|].
  intros m s' _ Hs'. apply Hbody, Hs'.
Qed.

(** ** Every store is a byte *)

Lemma ToUint8Clamp_range (x : float) : in_byte (JS.ToUint8Clamp x).
Proof.
  unfold JS.ToUint8Clamp, in_byte, JS.clampZ.
  destruct (Prim2SF x) as [s|s| |s m e]; try destruct s; lia.
Qed.

Lemma wr_bytes (d : list Z) (i : Z) (x : float) :
  Forall in_byte d -> Forall in_byte (wr d i x).
Proof.
  intros H. unfold wr. destruct (i <? 0); [exact H|].
  apply Forall_insert; [exact H | apply ToUint8Clamp_range].
Qed.

Lemma wr_length (d : list Z) (i : Z) (x : float) : length (wr d i x) = length d.
Proof. unfold wr. destruct (i <? 0); [reflexivity | apply length_insert]. Qed.

Ltac bytes_loop :=
  repeat first
    [ apply for_lt_ind; [| intros ? ? ?]
    | apply wr_bytes
    | assumption ].

Lemma copy_loop_bytes (size : Z) (d t : list Z) :
  Forall in_byte t -> Forall in_byte (for_lt 0 size 1 (fun i t => wr t i (rd d i)) t).
Proof. intros H. bytes_loop. Qed.

Lemma write_average_bytes (idx : Z) (w : window) (d : list Z) :
  Forall in_byte d -> Forall in_byte (write_average idx w d).
Proof.
  intros H. destruct w as [[[[r g] b] a] count]. unfold write_average. bytes_loop.
Qed.

Lemma applyBoxBlur_bytes (d : list Z) (w h radius : Z) :
  Forall in_byte d -> Forall in_byte (applyBoxBlur d w h radius).
Proof.
  intros H. unfold applyBoxBlur, vertical_pass, horizontal_pass.
  repeat (apply for_lt_ind; [| intros ? ? ?]); try assumption;
    apply write_average_bytes; assumption.
Qed.

Lemma applyUnsharpMask_bytes (img : ImageData) (amount : float) :
  Forall in_byte (data img) -> Forall in_byte (data (applyUnsharpMask img amount)).
Proof. intros H. unfold applyUnsharpMask. simpl. bytes_loop. Qed.

Lemma basic_pixel_bytes (p : ImageAdjustments) (i : Z) (d : list Z) :
  Forall in_byte d -> Forall in_byte (basic_pixel p i d).
Proof.
  intros H. unfold basic_pixel.
  destruct (negb (clarity p =? 0)%float); bytes_loop.
Qed.

Lemma applyBasicAdjustments_bytes (img : ImageData) (p : ImageAdjustments) :
  Forall in_byte (data img) -> Forall in_byte (data (applyBasicAdjustments img p)).
Proof.
  intros H. unfold applyBasicAdjustments.
  assert (Forall in_byte (for_lt 0 (len (data img)) 4 (basic_pixel p) (data img))) as Hloop.
  { apply for_lt_ind; [exact H|]. intros m s Hs. apply basic_pixel_bytes, Hs. }
  destruct (0 <? sharpen p)%float; [apply applyUnsharpMask_bytes|]; exact Hloop.
Qed.

Lemma color_pixel_bytes (p : ImageAdjustments) (i : Z) (d : list Z) :
  Forall in_byte d -> Forall in_byte (color_pixel p i d).
Proof.
  intros H. unfold color_pixel.
  repeat match goal with
         | |- context [let '(_, _) := ?e in _] => destruct e as [[? ?] ?]
         end.
  bytes_loop.
Qed.

Lemma applyColorAdjustments_bytes (img : ImageData) (p : ImageAdjustments) :
  Forall in_byte (data img) -> Forall in_byte (data (applyColorAdjustments img p)).
Proof.
  intros H. unfold applyColorAdjustments. simpl.
  apply for_lt_ind; [exact H|]. intros m s Hs. apply color_pixel_bytes, Hs.
Qed.

Lemma preset_loop_bytes (f : float -> float -> float -> float * float * float) (d : list Z) :
  Forall in_byte d -> Forall in_byte (preset_loop f d).
Proof.
  intros H. unfold preset_loop. apply for_lt_ind; [exact H|]. intros m s Hs.
  destruct (f _ _ _) as [[r g] b]. bytes_loop.
Qed.

Lemma applyFilterPreset_bytes (img : ImageData) (name : string) :
  Forall in_byte (data img) -> Forall in_byte (data (applyFilterPreset img name)).
Proof.
  intros H. unfold applyFilterPreset.
  destruct (filters name); [apply preset_loop_bytes|]; exact H.
Qed.

Lemma applyVignetteEffect_bytes (img : ImageData) (amount : float) :
  Forall in_byte (data img) -> Forall in_byte (data (applyVignetteEffect img amount)).
Proof.
  intros H. unfold applyVignetteEffect. simpl.
  repeat (apply for_lt_ind; [| intros ? ? ?]); try assumption.
  unfold vignette_pixel. destruct (_ <? _)%float; bytes_loop.
Qed.

Lemma applyNoiseEffect_bytes (random : nat -> float) (img : ImageData) (amount : float) :
  Forall in_byte (data img) -> Forall in_byte (data (applyNoiseEffect random img amount)).
Proof.
  intros H. unfold applyNoiseEffect. simpl.
  apply (for_lt_ind (fun st : list Z * nat => Forall in_byte (fst st))); [exact H|].
  intros m [d k] Hd. unfold noise_pixel. simpl in Hd.
  destruct (random k <? 0.5)%float; simpl; bytes_loop.
Qed.

Lemma applyEffects_bytes (random : nat -> float) (img : ImageData) (p : ImageAdjustments) :
  Forall in_byte (data img) -> Forall in_byte (data (applyEffects random img p)).
Proof.
  intros H. unfold applyEffects.
  set (r0 := mkImageData (width img) (height img) (data img)).
  assert (Forall in_byte (data r0)) as H0 by exact H.
  clearbody r0.
  set (r1 := if _ : bool then applyFilterPreset r0 (filterType p) else r0).
  assert (Forall in_byte (data r1)) as H1.
  { subst r1. destruct (_ && _); [apply applyFilterPreset_bytes|]; exact H0. }
  clearbody r1.
  set (r2 := if _ : bool then applyVignetteEffect r1 _ else r1).
  assert (Forall in_byte (data r2)) as H2.
  { subst r2. destruct (_ <? _)%float; [apply applyVignetteEffect_bytes|]; exact H1. }
  clearbody r2.
  set (r3 := if _ : bool then applyNoiseEffect random r2 _ else r2).
  assert (Forall in_byte (data r3)) as H3.
  { subst r3. destruct (_ <? _)%float; [apply applyNoiseEffect_bytes|]; exact H2. }
  clearbody r3.
  destruct (0 <? blur p)%float; [simpl; apply applyBoxBlur_bytes|]; exact H3.
Qed.

Lemma for_lt_ind_bounded {T : Type} (P : T -> Prop) (body : Z -> T -> T)
    (lo hi step : Z) (s : T) :
  0 < step ->
  P s ->
  (forall (m : nat) (s : T),
      lo + Z.of_nat m * step < hi -> P s -> P (body (lo + Z.of_nat m * step) s)) ->
  P (for_lt lo hi step body s).
Proof.
  intros Hstep Hs Hbody. unfold for_lt. apply for_loop_ind; [exact Hs|].
  intros m s' Hm Hs'. apply Hbody; [|exact Hs'].
  assert (0 <= (hi - lo + step - 1) / step) as Hq by lia.
  pose proof (Z.mul_div_le (hi - lo + step - 1) step Hstep) as Hle.
  nia.
Qed.

(** ** The alpha channel is framed *)

Lemma same_alpha_refl (d : list Z) : same_alpha d d.
Proof. intros k. reflexivity. Qed.

Lemma wr_same_alpha (d0 d : list Z) (i : Z) (x : float) :
  i mod 4 <> 3 -> same_alpha d0 d -> same_alpha d0 (wr d i x).
Proof.
  intros Hi H k. unfold wr. destruct (i <? 0) eqn:Hneg; [apply H|].
  rewrite list_lookup_insert_ne; [apply H|].
  apply Z.ltb_ge in Hneg. intros Heq. apply Hi.
  replace i with (3 + Z.of_nat k * 4) by lia.
  rewrite Z.mod_add by lia. reflexivity.
Qed.

(** The three stores of a pixel whose first byte is at [4m]. *)
Ltac rgb_stores :=
  repeat (apply wr_same_alpha;
          [ rewrite ?Z.add_0_l;
            first [ rewrite Z.mod_mul by lia; discriminate
                  | rewrite Z.add_comm, Z.mod_add by lia; discriminate ]
          | ]).

Lemma basic_pixel_alpha (d0 : list Z) (p : ImageAdjustments) (m : nat) (d : list Z) :
  same_alpha d0 d -> same_alpha d0 (basic_pixel p (0 + Z.of_nat m * 4) d).
Proof.
  intros H. unfold basic_pixel.
  destruct (negb (clarity p =? 0)%float); rgb_stores; exact H.
Qed.

Lemma applyUnsharpMask_alpha (d0 : list Z) (img : ImageData) (amount : float) :
  same_alpha d0 (data img) -> same_alpha d0 (data (applyUnsharpMask img amount)).
Proof.
  intros H. unfold applyUnsharpMask. simpl.
  apply for_lt_ind; [exact H|]. intros m d Hd.
  apply for_lt_ind_bounded; [lia | exact Hd |]. intros c d' Hc Hd'.
  apply wr_same_alpha; [|exact Hd'].
  replace (0 + Z.of_nat m * 4 + (0 + Z.of_nat c * 1)) with (Z.of_nat c + Z.of_nat m * 4) by lia.
  rewrite Z.mod_add by lia. rewrite Z.mod_small by lia. lia.
Qed.

Lemma color_pixel_alpha (d0 : list Z) (p : ImageAdjustments) (m : nat) (d : list Z) :
  same_alpha d0 d -> same_alpha d0 (color_pixel p (0 + Z.of_nat m * 4) d).
Proof.
  intros H. unfold color_pixel.
  repeat match goal with
         | |- context [let '(_, _) := ?e in _] => destruct e as [[? ?] ?]
         end.
  rgb_stores; exact H.
Qed.

(** ** The HSL round trip, by enumeration *)

Lemma channel_values_complete (c : Z) : 0 <= c <= 255 -> List.In c channel_values.
Proof.
  intros H. unfold channel_values.
  replace c with (Z.of_nat (Z.to_nat c)) by lia.
  apply List.in_map, List.in_seq. lia.
Qed.

Lemma channel_numbers_complete (c : Z) : 0 <= c <= 255 -> List.In (JS.of_Z c) channel_numbers.
Proof.
  intros H.
  change channel_numbers with (List.map JS.of_Z channel_values).
  apply List.in_map, channel_values_complete, H.
Qed.

Lemma round_trip_enumerated :
  List.forallb (fun r =>
    List.forallb (fun g =>
      List.forallb (fun b => round_trip_ok r g b) channel_numbers)
      channel_numbers)
    channel_numbers = true.
Proof. vm_cast_no_check (eq_refl true). Qed.

Lemma round_trip_ok_all (r g b : Z) :
  0 <= r <= 255 -> 0 <= g <= 255 -> 0 <= b <= 255 ->
  round_trip_ok (JS.of_Z r) (JS.of_Z g) (JS.of_Z b) = true.
Proof.
  intros Hr Hg Hb.
  pose proof round_trip_enumerated as H.
  rewrite List.forallb_forall in H.
  specialize (H _ (channel_numbers_complete r Hr)). cbv beta in H.
  rewrite List.forallb_forall in H.
  specialize (H _ (channel_numbers_complete g Hg)). cbv beta in H.
  rewrite List.forallb_forall in H.
  exact (H _ (channel_numbers_complete b Hb)).
Qed.

(** ** The message protocol *)

Lemma submit_all_spec (rqs : list Request) :
  forall ex : Executor,
    submit_all rqs ex =
    mkExecutor (listeners ex ++ listeners_of (promises ex) rqs) (inbox ex ++ rqs)
      (settled ex) (promises ex + length rqs).
Proof.
  induction rqs as [|rq rqs IH]; intros [ls ib st n]; simpl.
  - rewrite !app_nil_r. f_equal. lia.
  - rewrite IH. simpl. rewrite <- !app_assoc. simpl.
    destruct rq as [a i p t]. simpl. f_equal. lia.
Qed.

Lemma dispatch_miss (r : Response) (ls : list Listener) :
  Forall (fun l => operationId l <> resp_id r) ls -> dispatch r ls = (ls, []).
Proof.
  induction 1 as [|l ls Hl _ IH]; simpl; [reflexivity|].
  rewrite IH. destruct (Z.eqb_spec (operationId l) (resp_id r)); [contradiction | reflexivity].
Qed.

Lemma listeners_of_ids (id : Z) (rqs : list Request) :
  id ∉ List.map req_id rqs ->
  forall k, Forall (fun l => operationId l <> id) (listeners_of k rqs).
Proof.
  induction rqs as [|rq rqs IH]; intros Hid k; simpl; constructor.
  - simpl. intros Heq. apply Hid. simpl. rewrite Heq. left.
  - apply IH. intros Hin. apply Hid. simpl. right. exact Hin.
Qed.

Lemma worker_turns_answers_all (respond : Request -> ImageData + string)
    (rqs : list Request) :
  NoDup (List.map req_id rqs) ->
  forall (k n : nat) (st : list (nat * Outcome ImageData)),
    worker_turns respond (length rqs) (mkExecutor (listeners_of k rqs) rqs st n) =
    mkExecutor [] [] (st ++ outcomes respond k rqs) n.
Proof.
  induction rqs as [|rq rqs IH]; intros Hnd k n st; simpl.
  - rewrite app_nil_r. reflexivity.
  - simpl in Hnd. apply NoDup_cons in Hnd as [Hnotin Hnd].
    unfold worker_turn. simpl. rewrite Z.eqb_refl.
    rewrite (dispatch_miss (mkResponse (req_id rq) (respond rq)) (listeners_of (S k) rqs))
      by (apply listeners_of_ids, Hnotin).
    rewrite IH by exact Hnd. rewrite <- app_assoc. reflexivity.
Qed.

(** ** Histories *)

Lemma slice_last_length {A : Type} (n : nat) (l : list A) :
  (length (slice_last n l) <= n)%nat.
Proof. unfold slice_last. rewrite length_drop. lia. Qed.

Lemma applyChanges_capped (rendered : Z) (x : string) (st : ImageEditorTools.History) :
  (length (ImageEditorTools.history (ImageEditorTools.applyChanges rendered x st)) <= 10)%nat.
Proof.
  unfold ImageEditorTools.applyChanges. simpl.
  destruct (Nat.ltb_spec 10
              (length (slice0 (rendered + 1) (ImageEditorTools.history st) ++ [x])))
    as [H|H].
  - apply slice_last_length.
  - exact H.
Qed.

Lemma slice0_take {A : Type} (i : nat) (l : list A) :
  slice0 (Z.of_nat i) l = take i l.
Proof.
  unfold slice0. destruct (Z.ltb_spec (Z.of_nat i) 0); [lia|].
  rewrite Nat2Z.id. reflexivity.
Qed.

(** ** The contrast formula is neutral at 0 *)

Lemma wr_own_value (g : float -> float) (d : list Z) (i : Z) :
  (forall v : Z, in_byte v -> JS.ToUint8Clamp (g (JS.of_Z v)) = v) ->
  Forall in_byte d ->
  wr d i (g (rd d i)) = d.
Proof.
  intros Hg Hd. unfold wr, rd. destruct (i <? 0); [reflexivity|].
  destruct (d !! Z.to_nat i) as [v|] eqn:Hv.
  - rewrite Hg by (eapply Forall_lookup_1; eassumption).
    apply list_insert_id, Hv.
  - apply list_insert_ge, lookup_ge_None, Hv.
Qed.

Lemma neutral_channel_enumerated :
  List.forallb (fun v => JS.ToUint8Clamp (neutral_channel (JS.of_Z v)) =? v) channel_values
  = true.
Proof. vm_compute. reflexivity. Qed.

Lemma neutral_channel_id (v : Z) :
  in_byte v -> JS.ToUint8Clamp (neutral_channel (JS.of_Z v)) = v.
Proof.
  intros Hv. pose proof neutral_channel_enumerated as H.
  rewrite List.forallb_forall in H.
  apply Z.eqb_eq, H, channel_values_complete, Hv.
Qed.

(** X27.  With the contrast at 0 and the other basic parameters at their
    defaults, the basic adjustments return the image they are given. *)
Lemma applyBasicAdjustments_contrast_zero (img : ImageData) :
  Forall in_byte (data img) ->
  applyBasicAdjustments img (with_contrast 0 defaultAdjustments) = img.
Proof.
  intros Hd. destruct img as [w h d]. simpl in Hd.
  unfold applyBasicAdjustments.
  change (0 <? sharpen (with_contrast 0 defaultAdjustments))%float with false.
  cbv iota. simpl. f_equal.
  apply (for_lt_ind (fun s => s = d)); [reflexivity|].
  intros m s ->.
  change (basic_pixel (with_contrast 0 defaultAdjustments) (0 + Z.of_nat m * 4) d)
    with (wr (wr (wr d (0 + Z.of_nat m * 4)
                    (neutral_channel (rd d (0 + Z.of_nat m * 4))))
                (0 + Z.of_nat m * 4 + 1)
                (neutral_channel (rd d (0 + Z.of_nat m * 4 + 1))))
            (0 + Z.of_nat m * 4 + 2)
            (neutral_channel (rd d (0 + Z.of_nat m * 4 + 2)))).
  rewrite (wr_own_value neutral_channel d _ neutral_channel_id Hd).
  rewrite (wr_own_value neutral_channel d _ neutral_channel_id Hd).
  apply (wr_own_value neutral_channel d _ neutral_channel_id Hd).
Qed.

(** ** What the vignette leaves alone *)

Lemma wr_other (d : list Z) (i : Z) (x : float) (n : nat) :
  Z.of_nat n <> i -> wr d i x !! n = d !! n.
Proof.
  intros Hn. unfold wr. destruct (i <? 0) eqn:Hneg; [reflexivity|].
  apply Z.ltb_ge in Hneg. apply list_lookup_insert_ne. lia.
Qed.

Lemma pixel_index_injective (w x y x0 y0 : Z) :
  0 <= x < w -> 0 <= x0 < w -> y * w + x = y0 * w + x0 -> x = x0 /\ y = y0.
Proof.
  intros Hx Hx0 Heq.
  assert (y = y0) as -> by nia.
  split; [lia | reflexivity].
Qed.

(** X26.  A pixel whose distance, as the vignette measures it, is not above
    0.5 keeps its four bytes, whatever the amount. *)
Lemma vignette_keeps_inner_pixels (img : ImageData) (amount : float) (x0 y0 c : Z) :
  0 <= x0 < width img -> 0 <= y0 -> 0 <= c < 4 ->
  (0.5 <? vignette_distance (width img) (height img) x0 y0)%float = false ->
  data (applyVignetteEffect img amount) !! Z.to_nat ((y0 * width img + x0) * 4 + c)
  = data img !! Z.to_nat ((y0 * width img + x0) * 4 + c).
Proof.
  intros Hx0 Hy0 Hc Hin. destruct img as [w h d0]. simpl in *.
  unfold applyVignetteEffect. simpl.
  set (n0 := Z.to_nat ((y0 * w + x0) * 4 + c)).
  apply (for_lt_ind (fun d => d !! n0 = d0 !! n0)); [reflexivity|].
  intros my d Hd.
  apply (for_lt_ind_bounded (fun d => d !! n0 = d0 !! n0)); [lia | exact Hd |].
  intros mx d' Hmx Hd'.
  set (x := 0 + Z.of_nat mx * 1) in *. set (y := 0 + Z.of_nat my * 1).
  unfold vignette_pixel.
  change (JS.Math_sqrt _) with (vignette_distance w h x y).
  destruct (0.5 <? vignette_distance w h x y)%float eqn:Hout; [|exact Hd'].
  assert (y * w + x <> y0 * w + x0) as Hne.
  { intros Heq. apply pixel_index_injective in Heq as [-> ->]; [|lia|lia].
    rewrite Hin in Hout. discriminate. }
  assert (0 <= y * w + x) by (subst x y; nia).
  assert (0 <= y0 * w + x0) by nia.
  rewrite !wr_other by (subst n0; lia).
  exact Hd'.
Qed.

(** ** Two requests in the same millisecond *)

(** Two calls that read the same clock value share their operation id:
    the first answer settles both promises and the second answer finds no
    listener. *)
Lemma same_millisecond_ids_share_the_first_answer :
  let rqs := [basic_request 7 grey100; basic_request 7 orange] in
  let ex := worker_turns worker_respond 2 (submit_all rqs idle) in
  settled ex = [(0%nat, Resolved grey100); (1%nat, Resolved grey100)] /\
  listeners ex = [] /\ inbox ex = [].
Proof. repeat split; vm_compute; reflexivity. Qed.

(** * The claims *)

(** ** C1 *)

(** C1.  The claim is that the three stages run with [defaultAdjustments]
    return every pixel within 1 of its input.  The code does not: the
    default contrast 100 gives the factor 259*355/(255*159), about 2.27, so
    the grey pixel (100,100,100) comes out as (65,65,65), whatever the
    random stream. *)
Theorem C1_default_adjustments_change_grey (random : nat -> float) :
  data (applyBasicAdjustments grey100 defaultAdjustments) = [65; 65; 65; 255] /\
  data (worker_stages random grey100 defaultAdjustments) = [65; 65; 65; 255] /\
  1 < 100 - 65.
Proof. repeat split; vm_compute; reflexivity. Qed.

(** ** C2 *)

(** C2, as stated, fails.  Requests 1, 2 and 3 are submitted before the
    worker answers; once it has answered, the promises of all three calls
    are resolved, each with its own result: the results of requests 1 and
    2 are delivered, not dropped. *)
Lemma C2_earlier_results_are_delivered :
  let ex := worker_turns worker_respond 3 (submit_all three_requests idle) in
  settled ex = [(0%nat, Resolved grey100); (1%nat, Resolved orange);
                (2%nat, Resolved (white 1 1))] /\
  settled ex <> [(2%nat, Resolved (white 1 1))].
Proof. split; [vm_compute; reflexivity | vm_compute; discriminate]. Qed.

(** C2, amended.  Requests with pairwise distinct operation ids, submitted
    in quick succession and then answered by the worker, are all settled:
    each promise receives the answer to its own request, in submission
    order, and no listener or message is left. *)
Theorem C2_every_request_is_settled (respond : Request -> ImageData + string)
    (rqs : list Request) :
  NoDup (List.map req_id rqs) ->
  let ex := worker_turns respond (length rqs) (submit_all rqs idle) in
  settled ex = outcomes respond 0 rqs /\ listeners ex = [] /\ inbox ex = [].
Proof.
  intros Hnd. cbv zeta. rewrite submit_all_spec. simpl.
  rewrite worker_turns_answers_all by exact Hnd. simpl. auto.
Qed.

Lemma C2_every_request_is_settled_witness :
  NoDup (List.map req_id three_requests) /\
  let ex := worker_turns worker_respond 3 (submit_all three_requests idle) in
  settled ex = outcomes worker_respond 0 three_requests /\ listeners ex = [] /\ inbox ex = [].
Proof.
  assert (NoDup (List.map req_id three_requests)) as Hnd.
  { simpl. repeat (apply NoDup_cons_2; [rewrite ?elem_of_cons, elem_of_nil; lia|]).
    apply NoDup_nil_2. }
  split; [exact Hnd|].
  exact (C2_every_request_is_settled worker_respond three_requests Hnd).
Defined.

(** ** C3 *)

(** C3.  The claim is that the main-thread fallback returns what the
    worker's stages return for the same pixels and parameters.  The code
    does not: with the hue set to 180 the stages rotate the hue of the
    orange pixel and the fallback, which never reads [hue], leaves it
    alone; with the filter "warm" the stages apply the preset and the
    fallback's [switch] has no such case.  Both with a contrast of 0 (factor
    1) and, for the hue, with the default contrast as well. *)
Theorem C3_fallback_differs_from_stages (applyVignette : ImageData -> float -> ImageData)
    (random : nat -> float) :
  let hue180 := with_hue 180 (with_contrast 0 defaultAdjustments) in
  let warm := with_filter "warm" (with_contrast 0 defaultAdjustments) in
  data (worker_stages random orange hue180) = [50; 150; 200; 255] /\
  data (mainThreadPixels applyVignette orange hue180) = [200; 100; 50; 255] /\
  data (worker_stages random orange warm) = [235; 105; 45; 255] /\
  data (mainThreadPixels applyVignette orange warm) = [200; 100; 50; 255] /\
  data (worker_stages random orange (with_hue 180 defaultAdjustments)) = [0; 190; 255; 255] /\
  data (mainThreadPixels applyVignette orange (with_hue 180 defaultAdjustments))
    = [255; 65; 0; 255].
Proof. repeat split; vm_compute; reflexivity. Qed.

(** ** C4 *)

(** C4.  The claim is that commit A, commit B, undo, commit C leaves
    exactly [A; C] with the cursor on C.  In [ImageEditorTools] the commit
    of C can be waiting in the 300 ms timer when the undo is pressed: it
    then runs as the closure of the render before the undo, whose
    [historyIndex] is 1.  It slices at that index and increments the
    current one, so B is kept and the cursor is left on B.  The same
    commit made from the render after the undo gives [A; C], and so does
    [saveToHistory] of [ProImageEditor], which reads its refs when it
    runs. *)
Theorem C4_pending_commit_keeps_the_undone_entry (A B C : string) :
  let st := ImageEditorTools.applyChanges 0 B
              (ImageEditorTools.applyChanges (-1) A ImageEditorTools.empty) in
  let undone := fst (ImageEditorTools.handleUndo st) in
  let pro := ProImageEditor.saveToHistory B
               (ProImageEditor.saveToHistory A ProImageEditor.empty) in
  st = ImageEditorTools.mkHistory [A; B] 1 /\
  undone = ImageEditorTools.mkHistory [A; B] 0 /\
  ImageEditorTools.applyChanges (ImageEditorTools.historyIndex st) C undone
  = ImageEditorTools.mkHistory [A; B; C] 1 /\
  [A; B; C] !! 1%nat = Some B /\
  ImageEditorTools.applyChanges (ImageEditorTools.historyIndex undone) C undone
  = ImageEditorTools.mkHistory [A; C] 1 /\
  ProImageEditor.saveToHistory C (fst (ProImageEditor.handleUndo pro))
  = ProImageEditor.mkHistory [A; C] 1.
Proof. cbv zeta. repeat split; reflexivity. Qed.

(** ** C5 *)

(** C5.  The claim is that no history ever holds more than 10 entries.
    [applyChanges] of [ImageEditorTools] keeps to it (lemma
    [applyChanges_capped]); [saveToHistory] of [ProImageEditor] has no
    cap: eleven saves from the empty history leave eleven entries. *)
Theorem C5_saveToHistory_is_not_capped :
  let st := foldl (fun st x => ProImageEditor.saveToHistory x st) ProImageEditor.empty eleven in
  ProImageEditor.history st = eleven /\
  length (ProImageEditor.history st) = 11%nat /\
  ProImageEditor.historyIndex st = 10 /\
  length (ImageEditorTools.history
            (foldl (fun st x => ImageEditorTools.applyChanges
                                  (ImageEditorTools.historyIndex st) x st)
                   ImageEditorTools.empty eleven)) = 10%nat.
Proof. repeat split; vm_compute; reflexivity. Qed.

(** ** C6 *)

(** C6, as stated, fails.  On a processor that was never initialised,
    [updateAdjustments] and [generateFinalImage] do not fail: their
    promises resolve, with [null]. *)
Lemma C6_uninitialized_calls_resolve_with_null :
  let st := @newProcessor unit in
  let upd := updateAdjustments unit true (fun _ _ _ _ => grey100) (fun _ => EmptyString)
               (fun img _ => img) (with_hue 180) st in
  let fin := generateFinalImage unit true (fun _ _ _ _ => grey100) (fun _ => EmptyString)
               (fun img _ => img) st in
  Uninitialized unit st /\
  snd upd = Resolved None /\ snd fin = Resolved None /\
  (forall msg, snd upd <> Rejected msg) /\ (forall msg, snd fin <> Rejected msg).
Proof. repeat split; discriminate. Qed.

(** C6, amended.  While the pipeline is uninitialised (no source image:
    before [initialize] has loaded one, or after [destroy]),
    [updateAdjustments] and [generateFinalImage] resolve with [null]
    instead of failing; [updateAdjustments] still records the new
    adjustments, and nothing else of the state changes.  A processor is in
    that state when new, after [destroy], and after an [initialize] whose
    image failed to load. *)
Theorem C6_uninitialized_calls_return_null (Image : Type) (naturalWidth naturalHeight : Image -> Z)
    (loadImage : string -> option Image) (getContext : bool)
    (drawTransformed : Image -> Z -> Z -> ImageAdjustments -> ImageData)
    (canvasToDataURL : ImageData -> string) (applyVignette : ImageData -> float -> ImageData)
    (getWorker : option Worker)
    (newAdjustments : ImageAdjustments -> ImageAdjustments) (st : ImageProcessor Image) :
  Uninitialized Image st ->
  updateAdjustments Image getContext drawTransformed canvasToDataURL applyVignette
    newAdjustments st
  = (mkProcessor Image None (canvas Image st) (editCanvas Image st) (ctx Image st)
       (originalWidth Image st) (originalHeight Image st) (qualityFactor Image st)
       (worker Image st) (newAdjustments (adjustments Image st)),
     Resolved None) /\
  generateFinalImage Image getContext drawTransformed canvasToDataURL applyVignette st
  = (st, Resolved None) /\
  Uninitialized Image (@newProcessor Image) /\
  (forall st', Uninitialized Image (destroy Image st')) /\
  (forall url quality st',
      loadImage url = None ->
      Uninitialized Image
        (fst (initialize Image naturalWidth naturalHeight loadImage getContext drawTransformed
                getWorker url quality st'))).
Proof.
  unfold Uninitialized. intros Hsrc. repeat split.
  - unfold updateAdjustments, processImage. simpl. rewrite Hsrc. reflexivity.
  - unfold generateFinalImage. rewrite Hsrc. reflexivity.
  - intros url quality st' Hload. unfold initialize. rewrite Hload. reflexivity.
Qed.

Lemma C6_uninitialized_calls_return_null_witness :
  Uninitialized unit (@newProcessor unit) /\
  updateAdjustments unit true (fun _ _ _ _ => grey100) (fun _ => EmptyString)
    (fun img _ => img) (with_hue 180) (@newProcessor unit)
  = (mkProcessor unit None None None false 0 0 1 None (with_hue 180 defaultAdjustments),
     Resolved None) /\
  generateFinalImage unit true (fun _ _ _ _ => grey100) (fun _ => EmptyString)
    (fun img _ => img) (@newProcessor unit)
  = (@newProcessor unit, Resolved None).
Proof.
  assert (Uninitialized unit (@newProcessor unit)) as Hun by reflexivity.
  split; [exact Hun|].
  destruct (C6_uninitialized_calls_return_null unit (fun _ => 1) (fun _ => 1)
              (fun _ => None) true (fun _ _ _ _ => grey100) (fun _ => EmptyString)
              (fun img _ => img) None (with_hue 180) (@newProcessor unit) Hun)
    as (Hupd & Hfin & _).
  split; [exact Hupd | exact Hfin].
Defined.

(** ** C7 *)

(** C7.  For an input whose bytes lie in [0,255] and in-range parameters,
    every byte of the output of the basic adjustments, of the colour
    adjustments and of the effects (and of each effect taken alone: filter
    preset, vignette, noise, box blur) lies in [0,255]. *)
Theorem C7_output_channels_in_byte_range (random : nat -> float) (img : ImageData)
    (p : ImageAdjustments) :
  params_in_range p = true ->
  Forall in_byte (data img) ->
  Forall in_byte (data (applyBasicAdjustments img p)) /\
  Forall in_byte (data (applyColorAdjustments img p)) /\
  Forall in_byte (data (applyEffects random img p)) /\
  Forall in_byte (data (applyFilterPreset img (filterType p))) /\
  Forall in_byte (data (applyVignetteEffect img (vignette p / 100)%float)) /\
  Forall in_byte (data (applyNoiseEffect random img (noise p / 100)%float)) /\
  Forall in_byte (applyBoxBlur (data img) (width img) (height img) (blurRadius (blur p))).
Proof.
  intros _ H. repeat split.
  - apply applyBasicAdjustments_bytes, H.
  - apply applyColorAdjustments_bytes, H.
  - apply applyEffects_bytes, H.
  - apply applyFilterPreset_bytes, H.
  - apply applyVignetteEffect_bytes, H.
  - apply applyNoiseEffect_bytes, H.
  - apply applyBoxBlur_bytes, H.
Qed.

Lemma C7_output_channels_in_byte_range_witness :
  params_in_range busy = true /\
  Forall in_byte (data orange) /\
  Forall in_byte (data (applyBasicAdjustments orange busy)) /\
  Forall in_byte (data (applyColorAdjustments orange busy)) /\
  Forall in_byte (data (applyEffects steady orange busy)).
Proof.
  assert (params_in_range busy = true) as Hp by reflexivity.
  assert (Forall in_byte (data orange)) as Hd.
  { simpl. repeat (apply Forall_cons_2; [unfold in_byte; lia|]). apply Forall_nil_2. }
  split; [exact Hp|]. split; [exact Hd|].
  destruct (C7_output_channels_in_byte_range steady orange busy Hp Hd)
    as (Hb & Hc & He & _).
  split; [exact Hb|]. split; [exact Hc | exact He].
Defined.

(** ** C8 *)

(** C8.  For integer channels r, g, b in [0,255], each channel of
    [hslToRgb (rgbToHsl r g b)] is within 1 of the channel it came
    from. *)
Theorem C8_hsl_round_trip (r g b : Z) :
  0 <= r <= 255 -> 0 <= g <= 255 -> 0 <= b <= 255 ->
  let '(h, s, l) := rgbToHsl (JS.of_Z r) (JS.of_Z g) (JS.of_Z b) in
  let '(r', g', b') := hslToRgb h s l in
  within1 r' (JS.of_Z r) = true /\
  within1 g' (JS.of_Z g) = true /\
  within1 b' (JS.of_Z b) = true.
Proof.
  intros Hr Hg Hb.
  pose proof (round_trip_ok_all r g b Hr Hg Hb) as H.
  unfold round_trip_ok in H.
  destruct (rgbToHsl _ _ _) as [[h s] l].
  destruct (hslToRgb h s l) as [[r' g'] b'].
  apply andb_prop in H as [H Hb'].
  apply andb_prop in H as [Hr' Hg'].
  auto.
Qed.

Lemma C8_hsl_round_trip_witness :
  let '(h, s, l) := rgbToHsl (JS.of_Z 200) (JS.of_Z 100) (JS.of_Z 50) in
  let '(r', g', b') := hslToRgb h s l in
  within1 r' (JS.of_Z 200) = true /\
  within1 g' (JS.of_Z 100) = true /\
  within1 b' (JS.of_Z 50) = true.
Proof. apply (C8_hsl_round_trip 200 100 50); lia. Defined.

(** ** C9 *)

(** C9.  The claim is that a pixel within half the centre-to-corner
    distance of the centre is left alone by the vignette.  The code
    measures the distance with each axis divided by its own half-extent
    (the centre-to-corner distance [maxDist] is computed and never used)
    and so darkens such pixels: in a white 10 by 10 image with the
    vignette at 100, pixel (5, 2), three pixels above the centre of a
    circle of radius 3.53, goes from 255 to 244; its alpha stays. *)
Theorem C9_vignette_darkens_within_half_radius :
  let out := applyVignetteEffect (white 10 10) (100 / 100)%float in
  let idx := Z.to_nat ((2 * 10 + 5) * 4) in
  within_half_radius 10 10 5 2 = true /\
  data (white 10 10) !! idx = Some 255 /\
  data out !! idx = Some 244 /\
  data out !! (idx + 1)%nat = Some 244 /\
  data out !! (idx + 2)%nat = Some 244 /\
  data out !! (idx + 3)%nat = Some 255.
Proof. repeat split; vm_compute; reflexivity. Qed.

(** ** C10 *)

(** C10.  The basic adjustments (with or without sharpening) and the
    colour adjustments leave every alpha byte, the byte at an index
    4k+3, as it was, for any parameters. *)
Theorem C10_alpha_channel_unchanged (img : ImageData) (p : ImageAdjustments) (k : nat) :
  data (applyBasicAdjustments img p) !! (4 * k + 3)%nat = data img !! (4 * k + 3)%nat /\
  data (applyColorAdjustments img p) !! (4 * k + 3)%nat = data img !! (4 * k + 3)%nat.
Proof.
  split.
  - revert k. change (same_alpha (data img) (data (applyBasicAdjustments img p))).
    unfold applyBasicAdjustments.
    assert (same_alpha (data img)
              (for_lt 0 (len (data img)) 4 (basic_pixel p) (data img))) as Hloop.
    { apply for_lt_ind; [apply same_alpha_refl|].
      intros m d Hd. apply basic_pixel_alpha, Hd. }
    destruct (0 <? sharpen p)%float; [apply applyUnsharpMask_alpha|]; exact Hloop.
  - revert k. change (same_alpha (data img) (data (applyColorAdjustments img p))).
    unfold applyColorAdjustments. simpl.
    apply for_lt_ind; [apply same_alpha_refl|].
    intros m d Hd. apply color_pixel_alpha, Hd.
Qed.

(** * Further properties of the code *)

Lemma rd_app_4 (x rest : list Z) (i : Z) :
  length x = 4%nat -> 0 <= i -> rd (x ++ rest) (i + 4) = rd rest i.
Proof.
  intros Hx Hi. unfold rd.
  destruct (Z.ltb_spec (i + 4) 0); [lia|]. destruct (Z.ltb_spec i 0); [lia|].
  rewrite lookup_app_r by lia.
  replace (Z.to_nat (i + 4) - length x)%nat with (Z.to_nat i) by lia. reflexivity.
Qed.

Lemma wr_app_4 (x rest : list Z) (i : Z) (v : float) :
  length x = 4%nat -> 0 <= i -> wr (x ++ rest) (i + 4) v = x ++ wr rest i v.
Proof.
  intros Hx Hi. unfold wr.
  destruct (Z.ltb_spec (i + 4) 0); [lia|]. destruct (Z.ltb_spec i 0); [lia|].
  rewrite insert_app_r_alt by lia.
  replace (Z.to_nat (i + 4) - length x)%nat with (Z.to_nat i) by lia. reflexivity.
Qed.

Lemma px_body_shift F (x rest : list Z) (i : Z) :
  length x = 4%nat -> 0 <= i -> px_body F (i + 4) (x ++ rest) = x ++ px_body F i rest.
Proof.
  intros Hx Hi. unfold px_body.
  replace (i + 4 + 1) with (i + 1 + 4) by lia.
  replace (i + 4 + 2) with (i + 2 + 4) by lia.
  rewrite !rd_app_4 by lia.
  destruct (F _ _ _) as [[r g] b].
  rewrite !wr_app_4 by lia. reflexivity.
Qed.

Lemma for_loop_shift F (x : list Z) (n : nat) :
  length x = 4%nat ->
  forall (i : Z) (rest : list Z),
    0 <= i ->
    for_loop n (i + 4) 4 (px_body F) (x ++ rest) = x ++ for_loop n i 4 (px_body F) rest.
Proof.
  intros Hx. induction n as [|n IH]; intros i rest Hi; simpl; [reflexivity|].
  rewrite px_body_shift by assumption.
  replace (i + 4 + 4) with (i + 4 + 4) by lia.
  apply (IH (i + 4)). lia.
Qed.

Lemma px_body_head F (r g b a : Z) (rest : list Z) :
  px_body F 0 (r :: g :: b :: a :: rest) = px_body F 0 [r; g; b; a] ++ rest.
Proof.
  unfold px_body.
  change (rd (r :: g :: b :: a :: rest) 0) with (rd [r; g; b; a] 0).
  change (rd (r :: g :: b :: a :: rest) (0 + 1)) with (rd [r; g; b; a] (0 + 1)).
  change (rd (r :: g :: b :: a :: rest) (0 + 2)) with (rd [r; g; b; a] (0 + 2)).
  destruct (F _ _ _) as [[x y] z]. reflexivity.
Qed.

Lemma px_body_length F (i : Z) (d : list Z) : length (px_body F i d) = length d.
Proof.
  unfold px_body. destruct (F _ _ _) as [[x y] z]. rewrite !wr_length. reflexivity.
Qed.

Lemma map_px_nil F : map_px F [] = [].
Proof. simpl. unfold px_body. destruct (F _ _ _) as [[x y] z]. reflexivity. Qed.

Lemma loop_count_step (rest : list Z) (r g b a : Z) :
  Z.to_nat ((Z.of_nat (length (r :: g :: b :: a :: rest)) - 0 + 4 - 1) / 4)
  = S (Z.to_nat ((Z.of_nat (length rest) - 0 + 4 - 1) / 4)).
Proof.
  simpl length.
  replace (Z.of_nat (S (S (S (S (length rest))))) - 0 + 4 - 1)
    with ((Z.of_nat (length rest) - 0 + 4 - 1) + 1 * 4) by lia.
  rewrite Z.div_add by lia.
  assert (0 <= (Z.of_nat (length rest) - 0 + 4 - 1) / 4) by (apply Z.div_pos; lia).
  lia.
Qed.

Lemma pixel_loop_is_map_px F (d : list Z) :
  for_lt 0 (len d) 4 (px_body F) d = map_px F d.
Proof.
  assert (forall (n : nat) (d : list Z), (length d <= n)%nat ->
            for_lt 0 (len d) 4 (px_body F) d = map_px F d) as H.
  { clear d. induction n as [|n IH]; intros d Hn.
    - destruct d; [symmetry; apply map_px_nil | simpl in Hn; lia].
    - destruct d as [| r [| g [| b [| a rest]]]];
        [symmetry; apply map_px_nil | reflexivity | reflexivity | reflexivity |].
      change (map_px F (r :: g :: b :: a :: rest))
        with (px_body F 0 [r; g; b; a] ++ map_px F rest).
      rewrite <- (IH rest) by (simpl in Hn; lia).
      unfold for_lt, len. rewrite loop_count_step.
      simpl for_loop. rewrite px_body_head.
      apply (for_loop_shift F (px_body F 0 [r; g; b; a])); [|lia].
      rewrite px_body_length. reflexivity. }
  apply (H (length d)). lia.
Qed.

Lemma basic_pixel_is_px_body (p : ImageAdjustments) (i : Z) (d : list Z) :
  basic_pixel p i d = px_body (basic_channels p) i d.
Proof.
  unfold basic_pixel, px_body, basic_channels.
  destruct (negb (clarity p =? 0)%float); reflexivity.
Qed.

Lemma color_pixel_is_px_body (p : ImageAdjustments) (i : Z) (d : list Z) :
  color_pixel p i d = px_body (color_channels p) i d.
Proof.
  unfold color_pixel, px_body, color_channels.
  repeat match goal with
         | |- context [let '(_, _) := ?e in _] => destruct e as [[? ?] ?]
         end.
  reflexivity.
Qed.

Lemma for_lt_ext {T : Type} (f g : Z -> T -> T) (lo hi step : Z) (s : T) :
  (forall i s, f i s = g i s) -> for_lt lo hi step f s = for_lt lo hi step g s.
Proof.
  intros H. unfold for_lt. generalize (Z.to_nat ((hi - lo + step - 1) / step)) as n.
  intros n. revert lo s. induction n as [|n IH]; intros lo s; simpl; [reflexivity|].
  rewrite H. apply IH.
Qed.

Lemma applyColorAdjustments_is_map_px (img : ImageData) (p : ImageAdjustments) :
  data (applyColorAdjustments img p) = map_px (color_channels p) (data img).
Proof.
  unfold applyColorAdjustments. simpl.
  rewrite (for_lt_ext _ (px_body (color_channels p))) by apply color_pixel_is_px_body.
  apply pixel_loop_is_map_px.
Qed.

Lemma basic_loop_is_map_px (d : list Z) (p : ImageAdjustments) :
  for_lt 0 (len d) 4 (basic_pixel p) d = map_px (basic_channels p) d.
Proof.
  rewrite (for_lt_ext _ (px_body (basic_channels p))) by apply basic_pixel_is_px_body.
  apply pixel_loop_is_map_px.
Qed.

Lemma preset_loop_is_map_px F (d : list Z) : preset_loop F d = map_px F d.
Proof. apply (pixel_loop_is_map_px F d). Qed.

Lemma px_body_full F (r g b a : Z) :
  px_body F 0 [r; g; b; a]
  = let '(x, y, z) := F (JS.of_Z r) (JS.of_Z g) (JS.of_Z b) in
    [JS.ToUint8Clamp x; JS.ToUint8Clamp y; JS.ToUint8Clamp z; a].
Proof.
  unfold px_body.
  change (rd [r; g; b; a] 0) with (JS.of_Z r).
  change (rd [r; g; b; a] (0 + 1)) with (JS.of_Z g).
  change (rd [r; g; b; a] (0 + 2)) with (JS.of_Z b).
  destruct (F _ _ _) as [[x y] z]. reflexivity.
Qed.

Lemma map_px_length F (d : list Z) : length (map_px F d) = length d.
Proof. rewrite <- pixel_loop_is_map_px. unfold for_lt.
  apply (for_loop_ind (fun s => length s = length d)); [reflexivity|].
  intros m s _ Hs. rewrite px_body_length. exact Hs.
Qed.

Lemma map_px_pixel_at F (k : nat) :
  forall d : list Z,
    (4 * k + 4 <= length d)%nat ->
    pixel_at k (map_px F d) = px_body F 0 (pixel_at k d).
Proof.
  unfold pixel_at. induction k as [|k IH]; intros d Hk.
  - destruct d as [| r [| g [| b [| a rest]]]]; simpl in Hk; try lia.
    change (map_px F (r :: g :: b :: a :: rest))
      with (px_body F 0 [r; g; b; a] ++ map_px F rest).
    change (take 4 (drop (4 * 0) (r :: g :: b :: a :: rest))) with [r; g; b; a].
    rewrite !px_body_full. destruct (F _ _ _) as [[x y] z]. reflexivity.
  - destruct d as [| r [| g [| b [| a rest]]]]; simpl in Hk; try lia.
    change (map_px F (r :: g :: b :: a :: rest))
      with (px_body F 0 [r; g; b; a] ++ map_px F rest).
    rewrite px_body_full. destruct (F _ _ _) as [[x y] z].
    replace (4 * S k)%nat with (4 + 4 * k)%nat by lia.
    change (take 4 (drop (4 * k) (map_px F rest)) = px_body F 0 (take 4 (drop (4 * k) rest))).
    apply IH. lia.
Qed.

Lemma map_px_single F (t : list Z) : length t = 4%nat -> map_px F t = px_body F 0 t.
Proof.
  intros Ht. destruct t as [| r [| g [| b [| a [| ? ?]]]]]; simpl in Ht; try lia.
  change (map_px F [r; g; b; a]) with (px_body F 0 [r; g; b; a] ++ map_px F []).
  rewrite map_px_nil. apply app_nil_r.
Qed.

Lemma pixel_at_length (k : nat) (d : list Z) :
  (4 * k + 4 <= length d)%nat -> length (pixel_at k d) = 4%nat.
Proof. intros H. unfold pixel_at. rewrite length_take, length_drop. lia. Qed.

Lemma chunk_ind (P : list Z -> Prop) :
  P [] -> (forall r, P [r]) -> (forall r g, P [r; g]) -> (forall r g b, P [r; g; b]) ->
  (forall r g b a rest, P rest -> P (r :: g :: b :: a :: rest)) ->
  forall d, P d.
Proof.
  intros H0 H1 H2 H3 H4.
  assert (forall (n : nat) (d : list Z), (length d <= n)%nat -> P d) as H.
  { induction n as [|n IH]; intros d Hn.
    - destruct d; [exact H0 | simpl in Hn; lia].
    - destruct d as [| r [| g [| b [| a rest]]]]; auto.
      apply H4, IH. simpl in Hn. lia. }
  intros d. apply (H (length d)). lia.
Qed.

Lemma byte_enum (P : Z -> bool) :
  List.forallb P channel_values = true -> forall v, in_byte v -> P v = true.
Proof.
  intros H v Hv. rewrite List.forallb_forall in H.
  apply H, channel_values_complete, Hv.
Qed.

(** X1.  The per-pixel stages handle each pixel on its own: pixel [k] of the
    output of the basic adjustments (without sharpening), of the colour
    adjustments and of a filter preset (one of [filter_names]) is what the
    stage returns for the one-pixel image made of pixel [k] of the input. *)
Theorem stages_work_pixel_by_pixel (img : ImageData) (p : ImageAdjustments) (name : string)
    (k : nat) :
  (4 * k + 4 <= length (data img))%nat ->
  (0 <? sharpen p)%float = false ->
  List.existsb (String.eqb name) filter_names = true ->
  let pixel := mkImageData 1 1 (pixel_at k (data img)) in
  pixel_at k (data (applyBasicAdjustments img p)) = data (applyBasicAdjustments pixel p) /\
  pixel_at k (data (applyColorAdjustments img p)) = data (applyColorAdjustments pixel p) /\
  pixel_at k (data (applyFilterPreset img name)) = data (applyFilterPreset pixel name).
Proof.
  intros Hk Hsharp _. cbv zeta.
  pose proof (pixel_at_length k (data img) Hk) as Hlen.
  repeat split.
  - unfold applyBasicAdjustments. rewrite Hsharp. simpl.
    rewrite !basic_loop_is_map_px, map_px_pixel_at by exact Hk.
    symmetry. apply map_px_single, Hlen.
  - rewrite !applyColorAdjustments_is_map_px. simpl.
    rewrite map_px_pixel_at by exact Hk.
    symmetry. apply map_px_single, Hlen.
  - unfold applyFilterPreset. destruct (filters name) as [F|]; simpl; [|reflexivity].
    rewrite !preset_loop_is_map_px, map_px_pixel_at by exact Hk.
    symmetry. apply map_px_single, Hlen.
Qed.

Lemma invert_byte_enumerated :
  List.forallb
    (fun v => JS.ToUint8Clamp (255 - JS.of_Z (JS.ToUint8Clamp (255 - JS.of_Z v)))%float =? v)
    channel_values = true.
Proof. vm_compute. reflexivity. Qed.

Lemma invert_byte (v : Z) :
  in_byte v -> JS.ToUint8Clamp (255 - JS.of_Z (JS.ToUint8Clamp (255 - JS.of_Z v)))%float = v.
Proof. intros Hv. apply Z.eqb_eq, (byte_enum _ invert_byte_enumerated v Hv). Qed.

Lemma map_px_invert_twice (d : list Z) :
  Forall in_byte d -> map_px invert (map_px invert d) = d.
Proof.
  induction d as [| r | r g | r g b | r g b a rest IH] using chunk_ind; intros Hd.
  - rewrite !map_px_nil. reflexivity.
  - apply Forall_cons in Hd as [Hr _].
    change (map_px invert [r]) with [JS.ToUint8Clamp (255 - JS.of_Z r)%float].
    change (map_px invert [JS.ToUint8Clamp (255 - JS.of_Z r)%float])
      with [JS.ToUint8Clamp (255 - JS.of_Z (JS.ToUint8Clamp (255 - JS.of_Z r)))%float].
    rewrite invert_byte by exact Hr. reflexivity.
  - apply Forall_cons in Hd as [Hr Hd]. apply Forall_cons in Hd as [Hg _].
    change (map_px invert [r; g])
      with [JS.ToUint8Clamp (255 - JS.of_Z r)%float; JS.ToUint8Clamp (255 - JS.of_Z g)%float].
    change (map_px invert [JS.ToUint8Clamp (255 - JS.of_Z r)%float;
                           JS.ToUint8Clamp (255 - JS.of_Z g)%float])
      with [JS.ToUint8Clamp (255 - JS.of_Z (JS.ToUint8Clamp (255 - JS.of_Z r)))%float;
            JS.ToUint8Clamp (255 - JS.of_Z (JS.ToUint8Clamp (255 - JS.of_Z g)))%float].
    rewrite !invert_byte by assumption. reflexivity.
  - apply Forall_cons in Hd as [Hr Hd]. apply Forall_cons in Hd as [Hg Hd].
    apply Forall_cons in Hd as [Hb _].
    change (map_px invert [r; g; b])
      with [JS.ToUint8Clamp (255 - JS.of_Z r)%float; JS.ToUint8Clamp (255 - JS.of_Z g)%float;
            JS.ToUint8Clamp (255 - JS.of_Z b)%float].
    change (map_px invert [JS.ToUint8Clamp (255 - JS.of_Z r)%float;
                           JS.ToUint8Clamp (255 - JS.of_Z g)%float;
                           JS.ToUint8Clamp (255 - JS.of_Z b)%float])
      with [JS.ToUint8Clamp (255 - JS.of_Z (JS.ToUint8Clamp (255 - JS.of_Z r)))%float;
            JS.ToUint8Clamp (255 - JS.of_Z (JS.ToUint8Clamp (255 - JS.of_Z g)))%float;
            JS.ToUint8Clamp (255 - JS.of_Z (JS.ToUint8Clamp (255 - JS.of_Z b)))%float].
    rewrite !invert_byte by assumption. reflexivity.
  - apply Forall_cons in Hd as [Hr Hd]. apply Forall_cons in Hd as [Hg Hd].
    apply Forall_cons in Hd as [Hb Hd]. apply Forall_cons in Hd as [Ha Hd].
    change (map_px invert (r :: g :: b :: a :: rest))
      with ([JS.ToUint8Clamp (255 - JS.of_Z r)%float; JS.ToUint8Clamp (255 - JS.of_Z g)%float;
             JS.ToUint8Clamp (255 - JS.of_Z b)%float; a] ++ map_px invert rest).
    change (map_px invert
              ([JS.ToUint8Clamp (255 - JS.of_Z r)%float;
                JS.ToUint8Clamp (255 - JS.of_Z g)%float;
                JS.ToUint8Clamp (255 - JS.of_Z b)%float; a] ++ map_px invert rest))
      with ([JS.ToUint8Clamp (255 - JS.of_Z (JS.ToUint8Clamp (255 - JS.of_Z r)))%float;
             JS.ToUint8Clamp (255 - JS.of_Z (JS.ToUint8Clamp (255 - JS.of_Z g)))%float;
             JS.ToUint8Clamp (255 - JS.of_Z (JS.ToUint8Clamp (255 - JS.of_Z b)))%float; a]
            ++ map_px invert (map_px invert rest)).
    rewrite !invert_byte by assumption. rewrite IH by exact Hd. reflexivity.
Qed.

(** X2.  Inverting twice gives the image back. *)
Theorem invert_preset_twice (img : ImageData) :
  Forall in_byte (data img) ->
  applyFilterPreset (applyFilterPreset img "invert") "invert" = img.
Proof.
  intros Hd. destruct img as [w h d]. simpl in Hd.
  unfold applyFilterPreset. simpl. rewrite !preset_loop_is_map_px.
  rewrite map_px_invert_twice by exact Hd. reflexivity.
Qed.

(** X3.  The presets grayscale and noir give every complete pixel three
    equal colour bytes and leave its alpha byte. *)
Theorem grayscale_and_noir_give_grey_pixels (img : ImageData) (k : nat) :
  (4 * k + 4 <= length (data img))%nat ->
  (exists v a : Z,
      pixel_at k (data (applyFilterPreset img "grayscale")) = [v; v; v; a] /\
      data img !! (4 * k + 3)%nat = Some a) /\
  (exists v a : Z,
      pixel_at k (data (applyFilterPreset img "noir")) = [v; v; v; a] /\
      data img !! (4 * k + 3)%nat = Some a).
Proof.
  intros Hk.
  assert (exists r g b a, pixel_at k (data img) = [r; g; b; a] /\
                          data img !! (4 * k + 3)%nat = Some a) as (r & g & b & a & Hpx & Ha).
  { pose proof (pixel_at_length k (data img) Hk) as Hlen.
    destruct (pixel_at k (data img)) as [| r [| g [| b [| a [| ? ?]]]]] eqn:Hpx;
      simpl in Hlen; try lia.
    exists r, g, b, a. split; [reflexivity|].
    assert (pixel_at k (data img) !! 3%nat = Some a) as H3 by (rewrite Hpx; reflexivity).
    unfold pixel_at in H3. rewrite lookup_take_lt, lookup_drop in H3 by lia. exact H3. }
  split.
  - exists (JS.ToUint8Clamp
              (JS.of_Z r * 0.299 + JS.of_Z g * 0.587 + JS.of_Z b * 0.114)%float), a.
    split; [|exact Ha].
    unfold applyFilterPreset. simpl. rewrite preset_loop_is_map_px.
    rewrite map_px_pixel_at, Hpx by exact Hk. reflexivity.
  - eexists _, a. split; [|exact Ha].
    unfold applyFilterPreset. simpl. rewrite preset_loop_is_map_px.
    rewrite map_px_pixel_at, Hpx by exact Hk. rewrite px_body_full. reflexivity.
Qed.

(** Sizes. *)
Lemma for_lt_length {T : Type} (f : Z -> list Z -> list Z) (lo hi step : Z) (d : list Z)
    (n : nat) :
  length d = n ->
  (forall i s, length (f i s) = length s) ->
  length (for_lt lo hi step f d) = n.
Proof.
  intros Hd Hf. apply (for_lt_ind (fun s => length s = n)); [exact Hd|].
  intros m s Hs. rewrite Hf. exact Hs.
Qed.

Lemma write_average_length (idx : Z) (w : window) (d : list Z) :
  length (write_average idx w d) = length d.
Proof.
  destruct w as [[[[r g] b] a] count]. unfold write_average. rewrite !wr_length. reflexivity.
Qed.

Lemma applyBoxBlur_length (d : list Z) (w h radius : Z) :
  length (applyBoxBlur d w h radius) = length d.
Proof.
  unfold applyBoxBlur, vertical_pass, horizontal_pass.
  repeat (apply (for_lt_ind (fun s => length s = length d)); [| intros ? ? ?]);
    first [reflexivity | assumption | rewrite write_average_length; assumption].
Qed.

Lemma applyUnsharpMask_length (img : ImageData) (amount : float) :
  length (data (applyUnsharpMask img amount)) = length (data img).
Proof.
  unfold applyUnsharpMask. simpl.
  repeat (apply (for_lt_ind (fun s => length s = length (data img))); [| intros ? ? ?]);
    first [reflexivity | assumption | rewrite wr_length; assumption].
Qed.

Lemma vignette_pixel_length (w : Z) (cx cy amount : float) (x y : Z) (d : list Z) :
  length (vignette_pixel w cx cy amount x y d) = length d.
Proof.
  unfold vignette_pixel. destruct (_ <? _)%float; [|reflexivity].
  rewrite !wr_length. reflexivity.
Qed.

Lemma noise_pixel_length (random : nat -> float) (amount : float) (i : Z) (st : list Z * nat) :
  length (fst (noise_pixel random amount i st)) = length (fst st).
Proof.
  destruct st as [d k]. unfold noise_pixel.
  destruct (random k <? 0.5)%float; simpl; [reflexivity|]. rewrite !wr_length. reflexivity.
Qed.

(** X4.  The stages keep the width, the height and the number of bytes: the
    basic and the colour adjustments for any parameters, the effects and
    the three stages in sequence for parameters within their documented
    ranges. *)
Theorem stages_keep_the_size (random : nat -> float) (img : ImageData) (p : ImageAdjustments) :
  let same_size (out : ImageData) :=
    width out = width img /\ height out = height img /\
    length (data out) = length (data img) in
  same_size (applyBasicAdjustments img p) /\
  same_size (applyColorAdjustments img p) /\
  (params_in_range p = true ->
   same_size (applyEffects random img p) /\
   same_size (worker_stages random img p)).
Proof.
  cbv zeta.
  assert (forall i q, width (applyBasicAdjustments i q) = width i /\
                      height (applyBasicAdjustments i q) = height i /\
                      length (data (applyBasicAdjustments i q)) = length (data i)) as Hbasic.
  { intros i q. unfold applyBasicAdjustments.
    assert (length (for_lt 0 (len (data i)) 4 (basic_pixel q) (data i)) = length (data i))
      as Hloop.
    { rewrite basic_loop_is_map_px. apply map_px_length. }
    destruct (0 <? sharpen q)%float.
    - split; [reflexivity|]. split; [reflexivity|].
      rewrite applyUnsharpMask_length. exact Hloop.
    - split; [reflexivity|]. split; [reflexivity | exact Hloop]. }
  assert (forall i q, width (applyColorAdjustments i q) = width i /\
                      height (applyColorAdjustments i q) = height i /\
                      length (data (applyColorAdjustments i q)) = length (data i)) as Hcolor.
  { intros i q. repeat split. rewrite applyColorAdjustments_is_map_px. apply map_px_length. }
  assert (forall i q, width (applyEffects random i q) = width i /\
                      height (applyEffects random i q) = height i /\
                      length (data (applyEffects random i q)) = length (data i)) as Heffects.
  { intros i q. unfold applyEffects.
    set (r0 := mkImageData (width i) (height i) (data i)).
    assert (width r0 = width i /\ height r0 = height i /\ length (data r0) = length (data i))
      as H0 by (repeat split).
    clearbody r0.
    set (r1 := if _ : bool then applyFilterPreset r0 (filterType q) else r0).
    assert (width r1 = width i /\ height r1 = height i /\ length (data r1) = length (data i))
      as H1.
    { subst r1. destruct (_ && _); [|exact H0]. unfold applyFilterPreset.
      destruct (filters _); [|exact H0]. simpl.
      rewrite preset_loop_is_map_px, map_px_length. exact H0. }
    clearbody r1.
    set (r2 := if _ : bool then applyVignetteEffect r1 _ else r1).
    assert (width r2 = width i /\ height r2 = height i /\ length (data r2) = length (data i))
      as H2.
    { subst r2. destruct (_ <? _)%float; [|exact H1]. unfold applyVignetteEffect. simpl.
      destruct H1 as (Hw & Hh & Hl). repeat split; try assumption.
      repeat (apply (for_lt_ind (fun s => length s = length (data i))); [| intros ? ? ?]);
        try assumption. rewrite vignette_pixel_length. assumption. }
    clearbody r2.
    set (r3 := if _ : bool then applyNoiseEffect random r2 _ else r2).
    assert (width r3 = width i /\ height r3 = height i /\ length (data r3) = length (data i))
      as H3.
    { subst r3. destruct (_ <? _)%float; [|exact H2]. unfold applyNoiseEffect. simpl.
      destruct H2 as (Hw & Hh & Hl). repeat split; try assumption.
      apply (for_lt_ind (fun st : list Z * nat => length (fst st) = length (data i)));
        [exact Hl|].
      intros m st Hst. rewrite noise_pixel_length. exact Hst. }
    clearbody r3.
    destruct (0 <? blur q)%float; [|exact H3]. simpl.
    destruct H3 as (Hw & Hh & Hl). repeat split; try assumption.
    rewrite applyBoxBlur_length. exact Hl. }
  split; [apply Hbasic|]. split; [apply Hcolor|]. intros _. split; [apply Heffects|].
  unfold worker_stages.
  destruct (Hbasic img p) as (B1 & B2 & B3).
  destruct (Hcolor (applyBasicAdjustments img p) p) as (C1 & C2 & C3).
  destruct (Heffects (applyColorAdjustments (applyBasicAdjustments img p) p) p)
    as (E1 & E2 & E3).
  destruct (_ || _); repeat split; congruence.
Qed.

Lemma map_px_same_alpha F (d0 d : list Z) :
  same_alpha d0 d -> same_alpha d0 (map_px F d).
Proof.
  intros H. rewrite <- pixel_loop_is_map_px.
  apply for_lt_ind; [exact H|]. intros m s Hs.
  unfold px_body. destruct (F _ _ _) as [[x y] z]. rgb_stores; exact Hs.
Qed.

Lemma applyVignetteEffect_alpha (d0 : list Z) (img : ImageData) (amount : float) :
  same_alpha d0 (data img) -> same_alpha d0 (data (applyVignetteEffect img amount)).
Proof.
  intros H. unfold applyVignetteEffect. simpl.
  apply for_lt_ind; [exact H|]. intros my d Hd.
  apply for_lt_ind; [exact Hd|]. intros mx d' Hd'.
  unfold vignette_pixel. destruct (_ <? _)%float; [|exact Hd'].
  repeat (apply wr_same_alpha;
          [ rewrite ?(Z.add_comm _ 1), ?(Z.add_comm _ 2), ?Z.mod_add, ?Z.mod_mul by lia;
            discriminate |]).
  exact Hd'.
Qed.

Lemma applyNoiseEffect_alpha (random : nat -> float) (d0 : list Z) (img : ImageData)
    (amount : float) :
  same_alpha d0 (data img) -> same_alpha d0 (data (applyNoiseEffect random img amount)).
Proof.
  intros H. unfold applyNoiseEffect. simpl.
  apply (for_lt_ind (fun st : list Z * nat => same_alpha d0 (fst st))); [exact H|].
  intros m [d k] Hd. unfold noise_pixel. simpl in Hd.
  destruct (random k <? 0.5)%float; simpl; [exact Hd|]. rgb_stores; exact Hd.
Qed.

(** X5.  Without blur the effects (a filter preset of [filter_names],
    vignette, noise) leave every alpha byte as it was; the blur is the only
    effect that writes alpha. *)
Theorem effects_without_blur_keep_alpha (random : nat -> float) (img : ImageData)
    (p : ImageAdjustments) (k : nat) :
  List.existsb (String.eqb (filterType p)) filter_names = true ->
  (0 <? blur p)%float = false ->
  data (applyEffects random img p) !! (4 * k + 3)%nat = data img !! (4 * k + 3)%nat.
Proof.
  intros _ Hblur. revert k.
  change (same_alpha (data img) (data (applyEffects random img p))).
  unfold applyEffects. rewrite Hblur.
  set (r0 := mkImageData (width img) (height img) (data img)).
  assert (same_alpha (data img) (data r0)) as H0 by apply same_alpha_refl.
  clearbody r0.
  set (r1 := if _ : bool then applyFilterPreset r0 (filterType p) else r0).
  assert (same_alpha (data img) (data r1)) as H1.
  { subst r1. destruct (_ && _); [|exact H0]. unfold applyFilterPreset.
    destruct (filters _); [|exact H0]. simpl. rewrite preset_loop_is_map_px.
    apply map_px_same_alpha, H0. }
  clearbody r1.
  set (r2 := if _ : bool then applyVignetteEffect r1 _ else r1).
  assert (same_alpha (data img) (data r2)) as H2.
  { subst r2. destruct (0 <? vignette p)%float; [apply applyVignetteEffect_alpha|]; exact H1. }
  clearbody r2.
  destruct (0 <? noise p)%float; [apply applyNoiseEffect_alpha|]; exact H2.
Qed.

(** X6.  The noise effect skips a pixel whose draw is below 0.5: when every
    draw is, the image comes back unchanged. *)
Theorem noise_with_low_draws_changes_nothing (random : nat -> float) (img : ImageData)
    (amount : float) :
  (forall k : nat, (random k <? 0.5)%float = true) ->
  applyNoiseEffect random img amount = img.
Proof.
  intros Hlow. destruct img as [w h d]. unfold applyNoiseEffect. simpl. f_equal.
  apply (for_lt_ind (fun st : list Z * nat => fst st = d)); [reflexivity|].
  intros m [s k] Hs. unfold noise_pixel. rewrite Hlow. exact Hs.
Qed.

Lemma grey_neutral_enumerated :
  List.forallb
    (fun v =>
       let '(x, y, z) := color_channels defaultAdjustments (JS.of_Z v) (JS.of_Z v) (JS.of_Z v) in
       (JS.ToUint8Clamp x =? v) && (JS.ToUint8Clamp y =? v) && (JS.ToUint8Clamp z =? v))
    channel_values = true.
Proof. vm_compute. reflexivity. Qed.

(** X7.  With the default colour parameters a grey pixel comes back exactly
    as it was. *)
Theorem default_colour_keeps_grey_pixels (img : ImageData) (k : nat) (v a : Z) :
  (4 * k + 4 <= length (data img))%nat ->
  in_byte v ->
  pixel_at k (data img) = [v; v; v; a] ->
  pixel_at k (data (applyColorAdjustments img defaultAdjustments)) = [v; v; v; a].
Proof.
  intros Hk Hv Hpx.
  rewrite applyColorAdjustments_is_map_px, map_px_pixel_at, Hpx by exact Hk.
  rewrite px_body_full.
  pose proof (byte_enum _ grey_neutral_enumerated v Hv) as H. cbv beta in H.
  destruct (color_channels _ _ _ _) as [[x y] z].
  apply andb_prop in H as [H Hz]. apply andb_prop in H as [Hx Hy].
  apply Z.eqb_eq in Hx, Hy, Hz. rewrite Hx, Hy, Hz. reflexivity.
Qed.

Lemma dispatch_partition (r : Response) (ls : list Listener) :
  List.map promise ls
  ≡ₚ List.map promise (fst (dispatch r ls)) ++ List.map fst (snd (dispatch r ls)).
Proof.
  induction ls as [|l ls IH]; simpl; [reflexivity|].
  destruct (dispatch r ls) as [keep done]. simpl in IH.
  destruct (operationId l =? resp_id r); simpl.
  - rewrite IH. apply Permutation_middle.
  - rewrite IH. reflexivity.
Qed.

Lemma reachable_account (ex : Executor) :
  reachable ex ->
  NoDup (pending ex ++ settled_promises ex) /\
  (forall q : nat, q ∈ pending ex ++ settled_promises ex <-> (q < promises ex)%nat).
Proof.
  unfold pending, settled_promises.
  induction 1 as [| ex now action img p _ [Hnd Hin] | ex respond _ [Hnd Hin]].
  - simpl. split; [apply NoDup_nil_2|]. intros q. rewrite elem_of_nil. lia.
  - simpl. rewrite List.map_app. simpl. split.
    + rewrite <- app_assoc. simpl.
      apply (NoDup_Permutation_proper _ _ (Permutation_middle _ _ _)).
      apply NoDup_cons_2; [|exact Hnd].
      intros Hq. apply Hin in Hq. lia.
    + intros q. specialize (Hin q). rewrite elem_of_app in Hin.
      destruct Hin as [H1 H2].
      rewrite !elem_of_app, elem_of_cons, elem_of_nil. split.
      * intros [[HA|[Heq|[]]]|HB];
          [pose proof (H1 (or_introl HA)) | | pose proof (H1 (or_intror HB))]; lia.
      * intros Hlt. destruct (decide (q = promises ex)) as [Heq|Hne];
          [left; right; left; exact Heq|].
        destruct (H2 ltac:(lia)) as [HA|HB]; [left; left; exact HA | right; exact HB].
  - unfold worker_turn. destruct (inbox ex) as [|rq rest]; [split; assumption|].
    pose proof (dispatch_partition (mkResponse (req_id rq) (respond rq)) (listeners ex))
      as Hperm.
    destruct (dispatch _ (listeners ex)) as [keep done]. simpl in *.
    assert (List.map promise keep ++ List.map fst (settled ex ++ done)
            ≡ₚ List.map promise (listeners ex) ++ List.map fst (settled ex)) as Hp.
    { rewrite Hperm, List.map_app. rewrite <- !app_assoc.
      apply Permutation_app_head, Permutation_app_comm. }
    split.
    + rewrite Hp. exact Hnd.
    + intros q. rewrite Hp. apply Hin.
Qed.

(** X8.  Every promise handed out is pending or settled, never both, and
    none is settled twice. *)
Theorem every_promise_is_settled_at_most_once (ex : Executor) (q : nat) :
  reachable ex ->
  NoDup (settled_promises ex) /\
  NoDup (pending ex) /\
  ((q < promises ex)%nat <-> q ∈ pending ex \/ q ∈ settled_promises ex) /\
  ~ (q ∈ pending ex /\ q ∈ settled_promises ex).
Proof.
  intros Hr. destruct (reachable_account ex Hr) as [Hnd Hin].
  apply NoDup_app in Hnd as (Hp & Hdisj & Hs).
  repeat split; try assumption.
  - intros Hq. apply elem_of_app, Hin, Hq.
  - intros Hq. apply Hin, elem_of_app, Hq.
  - intros [H1 H2]. exact (Hdisj q H1 H2).
Qed.

(** X9.  Two calls that share their operation id (the same clock value)
    both receive the answer to the first request; the answer to the second
    finds no listener and is dropped. *)
Theorem same_id_gets_the_first_answer (respond : Request -> ImageData + string)
    (rq1 rq2 : Request) :
  req_id rq1 = req_id rq2 ->
  let ex := submit_all [rq1; rq2] idle in
  let first := settle (mkResponse (req_id rq1) (respond rq1)) in
  worker_turn respond ex
  = mkExecutor [] [rq2] [(0%nat, first); (1%nat, first)] 2 /\
  worker_turns respond 2 ex
  = mkExecutor [] [] [(0%nat, first); (1%nat, first)] 2.
Proof.
  intros Hid. destruct rq1 as [a1 i1 p1 t1], rq2 as [a2 i2 p2 t2]. simpl in Hid. subst t2.
  cbv zeta. unfold worker_turns, worker_turn. simpl. rewrite Z.eqb_refl. simpl. auto.
Qed.

(** X10.  A request whose action the worker does not know rejects its
    promise with the text 'Unknown action: ' followed by the action. *)
Theorem unknown_action_rejects (random : nat -> float) (now : Z) (action : string)
    (img : ImageData) (p : ImageAdjustments) :
  action <> "basic-adjustments"%string ->
  action <> "color-adjustments"%string ->
  action <> "effects"%string ->
  let respond rq := onmessage random (req_action rq) (req_image rq) (req_params rq) in
  let '(ex, q) := executeImageOperation now action img p idle in
  settled (worker_turn respond ex) = [(q, Rejected ("Unknown action: " ++ action)%string)] /\
  listeners (worker_turn respond ex) = [].
Proof.
  intros H1 H2 H3. cbv zeta. unfold worker_turn. simpl. rewrite Z.eqb_refl. simpl.
  unfold settle, onmessage. simpl.
  apply String.eqb_neq in H1, H2, H3. rewrite H1, H2, H3. simpl. auto.
Qed.


Section ProcessorFacts.

Variable Image : Type.
Variable naturalWidth naturalHeight : Image -> Z.
Variable loadImage : string -> option Image.
Variable getContext : bool.
Variable drawTransformed : Image -> Z -> Z -> ImageAdjustments -> ImageData.
Variable canvasToDataURL : ImageData -> string.
Variable applyVignette : ImageData -> float -> ImageData.
Variable getWorker : option Worker.

Abbreviation Processor := (ImageProcessor Image).
Abbreviation update := (updateAdjustments Image getContext drawTransformed canvasToDataURL
                      applyVignette).
Abbreviation final := (generateFinalImage Image getContext drawTransformed canvasToDataURL
                     applyVignette).
Abbreviation process := (processImage Image getContext drawTransformed canvasToDataURL
                       applyVignette).
Abbreviation doProcess := (_doProcessImage Image getContext drawTransformed canvasToDataURL
                         applyVignette).
Abbreviation onMain := (processImageOnMainThread Image getContext canvasToDataURL applyVignette).

Lemma onMain_settings (st : Processor) : settings Image (fst (onMain st)) = settings Image st.
Proof.
  unfold processImageOnMainThread.
  destruct (sourceImage Image st), (canvas Image st), (editCanvas Image st), (ctx Image st),
    getContext; reflexivity.
Qed.

Lemma doProcess_settings (st : Processor) :
  settings Image (fst (doProcess st)) = settings Image st.
Proof.
  unfold _doProcessImage.
  destruct (sourceImage Image st) as [src|] eqn:Hs; [|reflexivity].
  destruct (canvas Image st) as [cv|] eqn:Hc; [|reflexivity].
  destruct (ctx Image st) eqn:Hx; [|reflexivity].
  set (st1 := set_canvas Image _ st).
  assert (settings Image st1 = settings Image st) as H1.
  { unfold settings, st1. simpl. reflexivity. }
  destruct (worker Image st1) as [w|].
  - destruct (workerPath w _ _); [rewrite <- H1; reflexivity|].
    rewrite onMain_settings. exact H1.
  - rewrite onMain_settings. exact H1.
Qed.

Lemma process_settings (st : Processor) :
  settings Image (fst (process st)) = settings Image st.
Proof.
  unfold processImage.
  destruct (sourceImage Image st) eqn:Hs; [|reflexivity].
  destruct (canvas Image st) eqn:Hc; [|reflexivity].
  destruct (ctx Image st) eqn:Hx; [|reflexivity].
  pose proof (doProcess_settings st) as H.
  destruct (doProcess st) as [st' r]. exact H.
Qed.

(** X11.  Processing touches the canvases only: [updateAdjustments] changes
    the adjustments as asked and nothing else of the settings, and
    [generateFinalImage] leaves all settings, the quality factor included,
    as they were. *)
Theorem processing_keeps_the_settings (newAdjustments : ImageAdjustments -> ImageAdjustments)
    (st : Processor) :
  (let st' := fst (update newAdjustments st) in
   sourceImage Image st' = sourceImage Image st /\
   originalWidth Image st' = originalWidth Image st /\
   originalHeight Image st' = originalHeight Image st /\
   qualityFactor Image st' = qualityFactor Image st /\
   worker Image st' = worker Image st /\
   adjustments Image st' = newAdjustments (adjustments Image st)) /\
  settings Image (fst (final st)) = settings Image st.
Proof.
  split.
  - cbv zeta. unfold updateAdjustments.
    pose proof (process_settings
                  (mkProcessor Image (sourceImage Image st) (canvas Image st)
                     (editCanvas Image st) (ctx Image st) (originalWidth Image st)
                     (originalHeight Image st) (qualityFactor Image st) (worker Image st)
                     (newAdjustments (adjustments Image st)))) as H.
    unfold settings in H. simpl in H. injection H as H1 H2 H3 H4 H5 H6 H7.
    repeat split; assumption.
  - unfold generateFinalImage.
    destruct (sourceImage Image st) as [src|] eqn:Hs; [|reflexivity].
    destruct (negb getContext); [reflexivity|].
    set (st1 := mkProcessor Image _ _ _ _ _ _ _ _ _).
    pose proof (process_settings st1) as H.
    destruct (process st1) as [st2 r]. simpl in H.
    unfold settings in H. subst st1. simpl in H. injection H as H1 H2 H3 H4 H5 H6 H7.
    unfold settings. simpl. rewrite H1, H5, H6, H7, Hs. reflexivity.
Qed.

Lemma onMain_ignores_worker (st : Processor) (w : option Worker) :
  let st' := mkProcessor Image (sourceImage Image st) (canvas Image st) (editCanvas Image st)
               (ctx Image st) (originalWidth Image st) (originalHeight Image st)
               (qualityFactor Image st) w (adjustments Image st) in
  snd (onMain st') = snd (onMain st) /\
  canvas Image (fst (onMain st')) = canvas Image (fst (onMain st)) /\
  editCanvas Image (fst (onMain st')) = editCanvas Image (fst (onMain st)).
Proof.
  cbv zeta. destruct st as [s c e x ow oh q wk a].
  unfold processImageOnMainThread. simpl.
  destruct s, c, e, x, getContext; simpl; repeat split; reflexivity.
Qed.

(** X12.  A worker whose first answer is an error gives what no worker
    gives: the same result and the same canvases as the main-thread path. *)
Theorem failing_worker_falls_back (w : Worker)
    (newAdjustments : ImageAdjustments -> ImageAdjustments) (st : Processor) :
  (forall img a, exists e, w "basic-adjustments"%string img a = inr e) ->
  let broken := update newAdjustments (with_worker Image w st) in
  let none := update newAdjustments (without_worker Image st) in
  snd broken = snd none /\
  canvas Image (fst broken) = canvas Image (fst none) /\
  editCanvas Image (fst broken) = editCanvas Image (fst none).
Proof.
  intros Hfail. cbv zeta. destruct st as [s c e x ow oh q wk a].
  unfold updateAdjustments, processImage, _doProcessImage, with_worker, without_worker.
  simpl.
  destruct s as [src|]; [|repeat split; reflexivity].
  destruct c as [cv|]; [|repeat split; reflexivity].
  destruct x; [|repeat split; reflexivity].
  simpl. unfold workerPath.
  destruct (Hfail (drawTransformed src (scaled ow q) (scaled oh q)
                     (newAdjustments a)) (newAdjustments a)) as [err He].
  rewrite He.
  unfold processImageOnMainThread, set_canvas. simpl.
  destruct e, getContext; simpl; repeat split; reflexivity.
Qed.




End ProcessorFacts.

(** X16.  Undo and redo are inverse moves of the cursor, stop at the ends,
    and never change the entries. *)
Theorem undo_redo_round_trip (h : list string) (i : Z) :
  0 < i < Z.of_nat (length h) ->
  let t := ImageEditorTools.mkHistory h i in
  let p := ProImageEditor.mkHistory h i in
  ImageEditorTools.handleUndo t
  = (ImageEditorTools.mkHistory h (i - 1), h !! Z.to_nat (i - 1)) /\
  is_Some (h !! Z.to_nat (i - 1)) /\
  ImageEditorTools.handleRedo (fst (ImageEditorTools.handleUndo t)) = (t, h !! Z.to_nat i) /\
  ProImageEditor.handleUndo p
  = (ProImageEditor.mkHistory h (i - 1), h !! Z.to_nat (i - 1)) /\
  ProImageEditor.handleRedo (fst (ProImageEditor.handleUndo p)) = (p, h !! Z.to_nat i) /\
  ImageEditorTools.handleUndo (ImageEditorTools.mkHistory h 0)
  = (ImageEditorTools.mkHistory h 0, None) /\
  ProImageEditor.handleUndo (ProImageEditor.mkHistory h 0)
  = (ProImageEditor.mkHistory h 0, None) /\
  ImageEditorTools.handleRedo (ImageEditorTools.mkHistory h (Z.of_nat (length h) - 1))
  = (ImageEditorTools.mkHistory h (Z.of_nat (length h) - 1), None) /\
  ProImageEditor.handleRedo (ProImageEditor.mkHistory h (Z.of_nat (length h) - 1))
  = (ProImageEditor.mkHistory h (Z.of_nat (length h) - 1), None).
Proof.
  intros Hi. cbv zeta.
  unfold ImageEditorTools.handleUndo, ImageEditorTools.handleRedo,
    ProImageEditor.handleUndo, ProImageEditor.handleRedo. simpl.
  destruct (Z.ltb_spec 0 i) as [_|]; [|lia]. simpl.
  destruct (Z.ltb_spec (i - 1) (Z.of_nat (length h) - 1)) as [_|]; [|lia].
  destruct (Z.ltb_spec (i - 1 + 1) 0) as [|_]; [lia|].
  replace (i - 1 + 1) with i by lia.
  rewrite Z.ltb_irrefl.
  repeat split; try reflexivity.
  apply lookup_lt_is_Some. lia.
Qed.

(** X17.  In [ImageEditorTools], a commit made from the current render
    (the closure's index is the cursor, 9) on a full history with the
    cursor on the last entry evicts the oldest entry but still advances the
    cursor, which is left one past the end; the next undo then shows the
    image just committed. *)
Theorem applyChanges_on_full_history_overshoots (h : list string) (x : string) :
  length h = 10%nat ->
  let st := ImageEditorTools.applyChanges 9 x (ImageEditorTools.mkHistory h 9) in
  ImageEditorTools.history st = drop 1 h ++ [x] /\
  ImageEditorTools.historyIndex st = Z.of_nat (length (ImageEditorTools.history st)) /\
  ImageEditorTools.history st !! Z.to_nat (ImageEditorTools.historyIndex st) = None /\
  ImageEditorTools.handleUndo st = (ImageEditorTools.mkHistory (drop 1 h ++ [x]) 9, Some x).
Proof.
  intros Hlen.
  do 11 (destruct h as [|? h]; simpl in Hlen; try lia).
  cbv zeta. repeat split; reflexivity.
Qed.

(** X18.  After [applyChanges], whatever render its closure is from, the
    history holds at most 10 entries, the newest entry is the last one, the
    rest is what the closure's index kept of the entries, and the cursor
    has advanced by one from where it was when the commit ran. *)
Theorem applyChanges_appends_and_caps (rendered : Z) (x : string)
    (st : ImageEditorTools.History) :
  let st' := ImageEditorTools.applyChanges rendered x st in
  (length (ImageEditorTools.history st') <= 10)%nat /\
  last (ImageEditorTools.history st') = Some x /\
  ImageEditorTools.history st'
  `suffix_of` slice0 (rendered + 1) (ImageEditorTools.history st) ++ [x] /\
  ImageEditorTools.historyIndex st' = ImageEditorTools.historyIndex st + 1.
Proof.
  cbv zeta. split; [apply applyChanges_capped|].
  unfold ImageEditorTools.applyChanges. simpl.
  set (pre := slice0 _ _).
  destruct (Nat.ltb_spec 10 (length (pre ++ [x]))) as [Hlt|Hle].
  - unfold slice_last. rewrite length_app in *. simpl in *.
    rewrite drop_app_le by lia.
    repeat split.
    + apply last_snoc.
    + apply suffix_app, suffix_drop.
  - repeat split; [apply last_snoc | reflexivity].
Qed.

(** X19.  In [ProImageEditor] the cursor always points at an entry (or
    nothing was saved yet): saving, undo and redo keep it so, and after a
    save it points at the saved image. *)
Theorem pro_cursor_stays_on_an_entry (x : string) (st : ProImageEditor.History) :
  cursor_ok st ->
  cursor_ok (ProImageEditor.saveToHistory x st) /\
  ProImageEditor.history (ProImageEditor.saveToHistory x st)
    !! Z.to_nat (ProImageEditor.historyIndex (ProImageEditor.saveToHistory x st)) = Some x /\
  cursor_ok (fst (ProImageEditor.handleUndo st)) /\
  cursor_ok (fst (ProImageEditor.handleRedo st)) /\
  cursor_ok ProImageEditor.empty.
Proof.
  intros Hok. destruct st as [h i]. unfold cursor_ok in *. simpl in *.
  assert (forall l : list string,
             0 <= Z.of_nat (length (l ++ [x])) - 1 < Z.of_nat (length (l ++ [x])) /\
             (l ++ [x]) !! Z.to_nat (Z.of_nat (length (l ++ [x])) - 1) = Some x) as Hsnoc.
  { intros l. rewrite length_app. simpl. split; [lia|].
    replace (Z.to_nat (Z.of_nat (length l + 1) - 1)) with (length l + 0)%nat by lia.
    rewrite lookup_app_r by lia. replace (length l + 0 - length l)%nat with 0%nat by lia.
    reflexivity. }
  repeat split.
  - right. unfold ProImageEditor.saveToHistory. simpl. apply Hsnoc.
  - unfold ProImageEditor.saveToHistory. simpl. apply Hsnoc.
  - unfold ProImageEditor.handleUndo. simpl.
    destruct (Z.ltb_spec 0 i); simpl; [right; lia | exact Hok].
  - unfold ProImageEditor.handleRedo. simpl.
    destruct (Z.ltb_spec i (Z.of_nat (length h) - 1)); simpl; [right; lia | exact Hok].
  - left. split; reflexivity.
Qed.

Lemma px_body_bytes F (i : Z) (d : list Z) :
  Forall in_byte d -> Forall in_byte (px_body F i d).
Proof. intros H. unfold px_body. destruct (F _ _ _) as [[x y] z]. bytes_loop. Qed.

(** X20.  The pixel path of the simple processor keeps sizes, alpha and byte
    range. *)
Theorem simple_pixel_path_frame (options : SimpleImageProcessor.FilterOptions)
    (img : ImageData) (k : nat) :
  Forall in_byte (data img) ->
  let out := SimpleImageProcessor.applyWithPixelManipulation options img in
  width out = width img /\ height out = height img /\
  length (data out) = length (data img) /\
  data out !! (4 * k + 3)%nat = data img !! (4 * k + 3)%nat /\
  Forall in_byte (data out).
Proof.
  intros Hd. cbv zeta. unfold SimpleImageProcessor.applyWithPixelManipulation. simpl.
  split; [reflexivity|]. split; [reflexivity|].
  rewrite pixel_loop_is_map_px. split; [apply map_px_length|]. split.
  - revert k. apply map_px_same_alpha, same_alpha_refl.
  - rewrite <- pixel_loop_is_map_px. apply for_lt_ind; [exact Hd|].
    intros m s Hs. apply px_body_bytes, Hs.
Qed.

Lemma rounded_enumerated :
  List.forallb (fun v => JS.ToUint8Clamp (rounded (JS.of_Z v)) =? v) channel_values = true.
Proof. vm_compute. reflexivity. Qed.

Lemma rounded_id (v : Z) : in_byte v -> JS.ToUint8Clamp (rounded (JS.of_Z v)) = v.
Proof. intros Hv. apply Z.eqb_eq, (byte_enum _ rounded_enumerated v Hv). Qed.

(** X21.  With the sliders at 100 and no filter, the pixel path returns the
    image it is given. *)
Theorem simple_pixel_path_neutral_at_defaults (img : ImageData) :
  Forall in_byte (data img) ->
  SimpleImageProcessor.applyWithPixelManipulation (editorOptions 100 100 100 "none") img = img.
Proof.
  intros Hd. destruct img as [w h d]. simpl in Hd.
  unfold SimpleImageProcessor.applyWithPixelManipulation. simpl. f_equal.
  apply (for_lt_ind (fun s => s = d)); [reflexivity|].
  intros m s ->.
  change (px_body (SimpleImageProcessor.pixel_channels (editorOptions 100 100 100 "none"))
            (0 + Z.of_nat m * 4) d)
    with (wr (wr (wr d (0 + Z.of_nat m * 4) (rounded (rd d (0 + Z.of_nat m * 4))))
                (0 + Z.of_nat m * 4 + 1) (rounded (rd d (0 + Z.of_nat m * 4 + 1))))
            (0 + Z.of_nat m * 4 + 2) (rounded (rd d (0 + Z.of_nat m * 4 + 2)))).
  rewrite (wr_own_value rounded d _ rounded_id Hd).
  rewrite (wr_own_value rounded d _ rounded_id Hd).
  apply (wr_own_value rounded d _ rounded_id Hd).
Qed.

(** X22.  Quarter turns stay quarter turns within one full turn, and a left
    turn undoes a right turn up to a full turn. *)
Theorem quarter_turns (r : Z) :
  r mod 90 = 0 -> -360 < r < 360 ->
  (rotateRight r mod 90 = 0 /\ -360 < rotateRight r < 360) /\
  (rotateLeft r mod 90 = 0 /\ -360 < rotateLeft r < 360) /\
  rotateLeft (rotateRight r) mod 360 = r mod 360 /\
  rotateRight (rotateLeft r) mod 360 = r mod 360 /\
  rotateRight (rotateRight (rotateRight (rotateRight r))) mod 360 = r mod 360 /\
  handleRotateBy 90 r = rotateRight r /\ handleRotateBy (-90) r = rotateLeft r.
Proof.
  intros Hmod Hr.
  assert (r = -270 \/ r = -180 \/ r = -90 \/ r = 0 \/ r = 90 \/ r = 180 \/ r = 270) as Hcases.
  { apply Z.mod_divide in Hmod; [|lia]. destruct Hmod as [q ->]. lia. }
  destruct Hcases as [->|[->|[->|[->|[->|[->| ->]]]]]]; vm_compute; repeat split; congruence.
Qed.

Lemma for_loop_ind_idx {T : Type} (body : Z -> T -> T) (step : Z) (n : nat) :
  forall (P : nat -> T -> Prop) (i : Z) (s : T),
    P 0%nat s ->
    (forall (m : nat) (s : T),
        (m < n)%nat -> P m s -> P (S m) (body (i + Z.of_nat m * step) s)) ->
    P n (for_loop n i step body s).
Proof.
  induction n as [|n IH]; intros P i s H0 Hstep; simpl; [exact H0|].
  apply (IH (fun m => P (S m))).
  - replace i with (i + Z.of_nat 0 * step) at 1 by lia. apply Hstep; [lia | exact H0].
  - intros m s' Hm Hs'.
    replace (i + step + Z.of_nat m * step) with (i + Z.of_nat (S m) * step) by lia.
    apply Hstep; [lia | exact Hs'].
Qed.

Lemma identity_enumerated :
  List.forallb (fun v => JS.ToUint8Clamp (JS.of_Z v) =? v) channel_values = true.
Proof. vm_compute. reflexivity. Qed.

Lemma byte_store_id (v : Z) : in_byte v -> JS.ToUint8Clamp (JS.of_Z v) = v.
Proof. intros Hv. apply Z.eqb_eq, (byte_enum _ identity_enumerated v Hv). Qed.

(** Copying a byte array into a fresh one gives the array. *)
Lemma copy_into_temp_is_copy (d : list Z) :
  Forall in_byte d -> copy_into_temp (len d) d = d.
Proof.
  intros Hd. unfold copy_into_temp, for_lt, len.
  replace (Z.to_nat ((Z.of_nat (length d) - 0 + 1 - 1) / 1)) with (length d)
    by (rewrite Z.div_1_r; lia).
  rewrite Nat2Z.id.
  assert (for_loop (length d) 0 1 (fun i t => wr t i (rd d i)) (replicate (length d) 0)
          = take (length d) d ++ replicate (length d - length d) 0) as H.
  { apply (for_loop_ind_idx _ 1 (length d)
             (fun m t => t = take m d ++ replicate (length d - m) 0)).
    - rewrite Nat.sub_0_r. reflexivity.
    - intros m t Hm ->.
      destruct (lookup_lt_is_Some_2 d m Hm) as [v Hv].
      unfold wr, rd. replace (0 + Z.of_nat m * 1) with (Z.of_nat m) by lia.
      destruct (Z.ltb_spec (Z.of_nat m) 0); [lia|]. rewrite Nat2Z.id, Hv.
      rewrite byte_store_id by (eapply Forall_lookup_1; eassumption).
      rewrite insert_app_r_alt by (rewrite length_take; lia).
      rewrite length_take. replace (m - m `min` length d)%nat with 0%nat by lia.
      replace (length d - m)%nat with (S (length d - S m)) by lia. simpl.
      rewrite (take_S_r d m v Hv), <- app_assoc. reflexivity. }
  rewrite H, Nat.sub_diag, take_ge, app_nil_r by lia. reflexivity.
Qed.

Lemma uniform_length (r g b a : Z) (n : nat) : length (uniform r g b a n) = (4 * n)%nat.
Proof. induction n as [|n IH]; simpl; [reflexivity | rewrite IH; lia]. Qed.

Lemma uniform_bytes (r g b a : Z) (n : nat) :
  in_byte r -> in_byte g -> in_byte b -> in_byte a -> Forall in_byte (uniform r g b a n).
Proof.
  intros Hr Hg Hb Ha. induction n as [|n IH]; simpl; [apply Forall_nil_2|].
  repeat (apply Forall_cons_2; [assumption|]). exact IH.
Qed.

Lemma uniform_lookup (r g b a : Z) (j : nat) :
  forall n : nat, (j < n)%nat ->
    uniform r g b a n !! (4 * j)%nat = Some r /\
    uniform r g b a n !! (4 * j + 1)%nat = Some g /\
    uniform r g b a n !! (4 * j + 2)%nat = Some b /\
    uniform r g b a n !! (4 * j + 3)%nat = Some a.
Proof.
  induction j as [|j IH]; intros [|n] Hn; try lia.
  - repeat split; reflexivity.
  - replace (4 * S j)%nat with (4 + 4 * j)%nat by lia. simpl. apply IH. lia.
Qed.

Lemma sample_uniform (r g b a : Z) (n : nat) (p : Z) (acc : window) :
  0 <= p < Z.of_nat n ->
  sample (uniform r g b a n) (p * 4) acc = sample [r; g; b; a] 0 acc.
Proof.
  intros Hp. destruct acc as [[[[sr sg] sb] sa] c]. unfold sample, rd.
  destruct (uniform_lookup r g b a (Z.to_nat p) n ltac:(lia)) as (H0 & H1 & H2 & H3).
  repeat match goal with
         | |- context [?i <? 0] =>
             lazymatch i with
             | 0 => fail
             | _ => destruct (Z.ltb_spec i 0); [lia|]
             end
         end.
  replace (Z.to_nat (p * 4)) with (4 * Z.to_nat p)%nat by lia.
  replace (Z.to_nat (p * 4 + 1)) with (4 * Z.to_nat p + 1)%nat by lia.
  replace (Z.to_nat (p * 4 + 2)) with (4 * Z.to_nat p + 2)%nat by lia.
  replace (Z.to_nat (p * 4 + 3)) with (4 * Z.to_nat p + 3)%nat by lia.
  rewrite H0, H1, H2, H3. reflexivity.
Qed.

Lemma window_uniform (r g b a : Z) (n : nat) (f : Z -> Z) (lo hi : Z) :
  (forall i, 0 <= f i < Z.of_nat n) ->
  for_lt lo hi 1 (fun i acc => sample (uniform r g b a n) (f i * 4) acc) (0, 0, 0, 0, 0)%float
  = (window_sum r (Z.to_nat (hi - lo)), window_sum g (Z.to_nat (hi - lo)),
     window_sum b (Z.to_nat (hi - lo)), window_sum a (Z.to_nat (hi - lo)),
     window_count (Z.to_nat (hi - lo))).
Proof.
  intros Hf. unfold for_lt.
  replace ((hi - lo + 1 - 1) / 1) with (hi - lo) by (rewrite Z.div_1_r; lia).
  apply (for_loop_ind_idx _ 1 (Z.to_nat (hi - lo))
           (fun m acc => acc = (window_sum r m, window_sum g m, window_sum b m,
                                window_sum a m, window_count m))); [reflexivity|].
  intros m acc _ ->. rewrite sample_uniform by apply Hf. reflexivity.
Qed.

Lemma averages_enumerated :
  List.forallb (fun radius =>
    List.forallb (fun v =>
      JS.ToUint8Clamp (window_sum v (Z.to_nat (radius + 1 - - radius))
                       / window_count (Z.to_nat (radius + 1 - - radius)))%float =? v)
      channel_values)
    effect_radii = true.
Proof. vm_compute. reflexivity. Qed.

Lemma average_of_equal_values (radius v : Z) :
  1 <= radius <= 5 -> in_byte v ->
  JS.ToUint8Clamp (window_sum v (Z.to_nat (radius + 1 - - radius))
                   / window_count (Z.to_nat (radius + 1 - - radius)))%float = v.
Proof.
  intros Hr Hv. pose proof averages_enumerated as H.
  rewrite List.forallb_forall in H.
  assert (List.In radius effect_radii) as Hin by (unfold effect_radii; simpl; lia).
  specialize (H radius Hin). cbv beta in H.
  apply Z.eqb_eq, (byte_enum _ H v Hv).
Qed.

Lemma wr_same_byte (d : list Z) (i : Z) (x : float) (v : Z) :
  0 <= i -> d !! Z.to_nat i = Some v -> JS.ToUint8Clamp x = v -> wr d i x = d.
Proof.
  intros Hi Hv Hx. unfold wr. destruct (Z.ltb_spec i 0); [lia|].
  rewrite Hx. apply list_insert_id, Hv.
Qed.

Lemma write_average_uniform (r g b a : Z) (n : nat) (p radius : Z) :
  in_byte r -> in_byte g -> in_byte b -> in_byte a ->
  1 <= radius <= 5 -> 0 <= p < Z.of_nat n ->
  let k := Z.to_nat (radius + 1 - - radius) in
  write_average (p * 4)
    (window_sum r k, window_sum g k, window_sum b k, window_sum a k, window_count k)
    (uniform r g b a n)
  = uniform r g b a n.
Proof.
  intros Hr Hg Hb Ha Hrad Hp. cbv zeta. unfold write_average.
  destruct (uniform_lookup r g b a (Z.to_nat p) n ltac:(lia)) as (H0 & H1 & H2 & H3).
  rewrite (wr_same_byte _ (p * 4) _ r); [|lia| |apply average_of_equal_values; assumption].
  2:{ replace (Z.to_nat (p * 4)) with (4 * Z.to_nat p)%nat by lia. exact H0. }
  rewrite (wr_same_byte _ (p * 4 + 1) _ g); [|lia| |apply average_of_equal_values; assumption].
  2:{ replace (Z.to_nat (p * 4 + 1)) with (4 * Z.to_nat p + 1)%nat by lia. exact H1. }
  rewrite (wr_same_byte _ (p * 4 + 2) _ b); [|lia| |apply average_of_equal_values; assumption].
  2:{ replace (Z.to_nat (p * 4 + 2)) with (4 * Z.to_nat p + 2)%nat by lia. exact H2. }
  apply (wr_same_byte _ (p * 4 + 3) _ a); [lia| |apply average_of_equal_values; assumption].
  replace (Z.to_nat (p * 4 + 3)) with (4 * Z.to_nat p + 3)%nat by lia. exact H3.
Qed.

(** X23.  The box blur, with a radius from 1 to 5, returns an image whose
    pixels are all equal as it is. *)
Theorem box_blur_keeps_uniform_images (w h radius r g b a : Z) :
  0 <= w -> 0 <= h -> 1 <= radius <= 5 ->
  in_byte r -> in_byte g -> in_byte b -> in_byte a ->
  applyBoxBlur (uniform r g b a (Z.to_nat (w * h))) w h radius
  = uniform r g b a (Z.to_nat (w * h)).
Proof.
  intros Hw Hh Hrad Hr Hg Hb Ha.
  set (n := Z.to_nat (w * h)). set (d := uniform r g b a n).
  assert (Forall in_byte d) as Hd by (apply uniform_bytes; assumption).
  assert (len d = w * h * 4) as Hlen.
  { unfold len, d. rewrite uniform_length. unfold n. nia. }
  assert (forall x y : Z, 0 <= x < w -> 0 <= y < h -> 0 <= y * w + x < Z.of_nat n) as Hpix.
  { intros x y Hx Hy. unfold n. nia. }
  unfold applyBoxBlur. rewrite <- Hlen, (copy_into_temp_is_copy d Hd).
  assert (horizontal_pass w h radius d d = d) as Hhor.
  { unfold horizontal_pass.
    apply (for_lt_ind_bounded (fun s => s = d)); [lia | reflexivity |].
    intros my s Hy ->.
    apply (for_lt_ind_bounded (fun s => s = d)); [lia | reflexivity |].
    intros mx s Hx ->. cbv zeta. unfold d.
    rewrite (window_uniform r g b a n
               (fun i => (0 + Z.of_nat my * 1) * w
                         + Z.min (w - 1) (Z.max 0 (0 + Z.of_nat mx * 1 + i)))
               (- radius) (radius + 1))
      by (intros i; apply Hpix; lia).
    apply write_average_uniform; try assumption. apply Hpix; lia. }
  rewrite Hhor.
  assert (for_lt 0 (len d) 1 (fun i t => wr t i (rd d i)) d = d) as Hcopy.
  { apply (for_lt_ind (fun s => s = d)); [reflexivity|].
    intros m s ->. apply (wr_own_value (fun x => x) d _ byte_store_id Hd). }
  rewrite Hcopy.
  unfold vertical_pass.
  apply (for_lt_ind_bounded (fun s => s = d)); [lia | reflexivity |].
  intros mx s Hx ->.
  apply (for_lt_ind_bounded (fun s => s = d)); [lia | reflexivity |].
  intros my s Hy ->. cbv zeta. unfold d.
  rewrite (window_uniform r g b a n
             (fun i => Z.min (h - 1) (Z.max 0 (0 + Z.of_nat my * 1 + i)) * w
                       + (0 + Z.of_nat mx * 1))
             (- radius) (radius + 1))
    by (intros i; apply Hpix; lia).
  apply write_average_uniform; try assumption. apply Hpix; lia.
Qed.

Lemma saveToHistory_at_tail (st : ProImageEditor.History) (l : list string) :
  ProImageEditor.historyIndex st = Z.of_nat (length (ProImageEditor.history st)) - 1 ->
  foldl (fun st x => ProImageEditor.saveToHistory x st) st l
  = ProImageEditor.mkHistory (ProImageEditor.history st ++ l)
      (Z.of_nat (length (ProImageEditor.history st ++ l)) - 1).
Proof.
  revert st. induction l as [|x l IH]; intros [h i] Hi; simpl in *.
  - rewrite app_nil_r. subst i. reflexivity.
  - rewrite IH.
    + unfold ProImageEditor.saveToHistory. simpl.
      destruct (Z.ltb_spec i (Z.of_nat (length h) - 1)); [lia|].
      rewrite <- app_assoc. reflexivity.
    + unfold ProImageEditor.saveToHistory. simpl. reflexivity.
Qed.

(** X24. [saveToHistory] keeps every image it is given: after any number of
    saves the history of [ProImageEditor] holds them all, in order, with the
    cursor on the last. *)
Theorem saveToHistory_keeps_every_save (l : list string) :
  foldl (fun st x => ProImageEditor.saveToHistory x st) ProImageEditor.empty l
  = ProImageEditor.mkHistory l (Z.of_nat (length l) - 1).
Proof. apply (saveToHistory_at_tail ProImageEditor.empty l). reflexivity. Qed.

(** X25. With the saturation at 100, no filter and no vignette, the fallback
    leaves on the canvas what the worker's basic adjustments (without
    sharpening) return. *)
Theorem fallback_is_the_basic_stage (applyVignette : ImageData -> float -> ImageData)
    (img : ImageData) (p : ImageAdjustments) :
  (saturation p =? 100)%float = true ->
  filterType p = "none"%string ->
  (0 <? vignette p)%float = false ->
  (0 <? sharpen p)%float = false ->
  mainThreadPixels applyVignette img p = applyBasicAdjustments img p.
Proof.
  intros Hsat Hfilter Hvig Hsharp.
  unfold mainThreadPixels, applyBasicAdjustments. rewrite Hfilter, Hvig, Hsharp. simpl.
  f_equal. apply for_lt_ext. intros i s.
  unfold main_pixel, basic_pixel. rewrite Hsat.
  destruct (negb (clarity p =? 0)%float); reflexivity.
Qed.

Lemma orange_bytes : Forall in_byte (data orange).
Proof. simpl. repeat (apply Forall_cons_2; [unfold in_byte; lia|]). apply Forall_nil_2. Qed.

Lemma stages_work_pixel_by_pixel_witness :
  (4 * 1 + 4 <= length (data two_pixels))%nat /\
  (0 <? sharpen (with_hue 180 defaultAdjustments))%float = false /\
  List.existsb (String.eqb "sepia") filter_names = true /\
  pixel_at 1 (data (applyColorAdjustments two_pixels (with_hue 180 defaultAdjustments)))
  = data (applyColorAdjustments (mkImageData 1 1 (pixel_at 1 (data two_pixels)))
            (with_hue 180 defaultAdjustments)) /\
  pixel_at 1 (data (applyFilterPreset two_pixels "sepia"))
  = data (applyFilterPreset (mkImageData 1 1 (pixel_at 1 (data two_pixels))) "sepia").
Proof.
  assert (4 * 1 + 4 <= length (data two_pixels))%nat as Hk by (simpl; lia).
  assert ((0 <? sharpen (with_hue 180 defaultAdjustments))%float = false) as Hs
    by reflexivity.
  assert (List.existsb (String.eqb "sepia") filter_names = true) as Hn by reflexivity.
  split; [exact Hk|]. split; [exact Hs|]. split; [exact Hn|].
  exact (proj2 (stages_work_pixel_by_pixel two_pixels (with_hue 180 defaultAdjustments)
                  "sepia" 1 Hk Hs Hn)).
Defined.

Lemma invert_preset_twice_witness :
  Forall in_byte (data orange) /\
  applyFilterPreset (applyFilterPreset orange "invert") "invert" = orange.
Proof. split; [exact orange_bytes | exact (invert_preset_twice orange orange_bytes)]. Defined.

Lemma grayscale_and_noir_give_grey_pixels_witness :
  (4 * 1 + 4 <= length (data two_pixels))%nat /\
  exists v a : Z,
    pixel_at 1 (data (applyFilterPreset two_pixels "grayscale")) = [v; v; v; a] /\
    data two_pixels !! (4 * 1 + 3)%nat = Some a.
Proof.
  assert (4 * 1 + 4 <= length (data two_pixels))%nat as Hk by (simpl; lia).
  split; [exact Hk|].
  exact (proj1 (grayscale_and_noir_give_grey_pixels two_pixels 1 Hk)).
Defined.

Lemma effects_without_blur_keep_alpha_witness :
  List.existsb (String.eqb (filterType (with_filter "sepia" defaultAdjustments))) filter_names
  = true /\
  (0 <? blur (with_filter "sepia" defaultAdjustments))%float = false /\
  data (applyEffects steady orange (with_filter "sepia" defaultAdjustments)) !! (4 * 0 + 3)%nat
  = data orange !! (4 * 0 + 3)%nat.
Proof.
  assert (List.existsb (String.eqb (filterType (with_filter "sepia" defaultAdjustments)))
            filter_names = true) as Hn by reflexivity.
  assert ((0 <? blur (with_filter "sepia" defaultAdjustments))%float = false) as Hb
    by reflexivity.
  split; [exact Hn|]. split; [exact Hb|].
  exact (effects_without_blur_keep_alpha steady orange (with_filter "sepia" defaultAdjustments)
           0 Hn Hb).
Defined.

Lemma stages_keep_the_size_witness :
  params_in_range busy = true /\
  length (data (worker_stages steady orange busy)) = length (data orange).
Proof.
  assert (params_in_range busy = true) as Hp by (vm_compute; reflexivity).
  split; [exact Hp|].
  pose proof (stages_keep_the_size steady orange busy) as H. cbv zeta in H.
  destruct H as (_ & _ & H).
  destruct (H Hp) as (_ & _ & _ & Hlen).
  exact Hlen.
Defined.

Lemma noise_with_low_draws_changes_nothing_witness :
  (forall k : nat, ((fun _ : nat => 0.25%float) k <? 0.5)%float = true) /\
  applyNoiseEffect (fun _ => 0.25%float) orange 1 = orange.
Proof.
  assert (forall k : nat, ((fun _ : nat => 0.25%float) k <? 0.5)%float = true) as Hlow
    by (intros k; reflexivity).
  split; [exact Hlow|].
  exact (noise_with_low_draws_changes_nothing (fun _ => 0.25%float) orange 1 Hlow).
Defined.

Lemma default_colour_keeps_grey_pixels_witness :
  (4 * 0 + 4 <= length (data grey100))%nat /\ in_byte 100 /\
  pixel_at 0 (data grey100) = [100; 100; 100; 255] /\
  pixel_at 0 (data (applyColorAdjustments grey100 defaultAdjustments)) = [100; 100; 100; 255].
Proof.
  assert (4 * 0 + 4 <= length (data grey100))%nat as Hk by (simpl; lia).
  assert (in_byte 100) as Hv by (unfold in_byte; lia).
  assert (pixel_at 0 (data grey100) = [100; 100; 100; 255]) as Hpx by reflexivity.
  split; [exact Hk|]. split; [exact Hv|]. split; [exact Hpx|].
  exact (default_colour_keeps_grey_pixels grey100 0 100 255 Hk Hv Hpx).
Defined.

Lemma box_blur_keeps_uniform_images_witness :
  0 <= 2 /\ 1 <= 1 <= 5 /\ in_byte 10 /\ in_byte 20 /\ in_byte 30 /\ in_byte 255 /\
  applyBoxBlur (uniform 10 20 30 255 (Z.to_nat (2 * 2))) 2 2 1
  = uniform 10 20 30 255 (Z.to_nat (2 * 2)).
Proof.
  assert (0 <= 2) as H0 by lia. assert (1 <= 1 <= 5) as H1 by lia.
  assert (in_byte 10) as Hr by (unfold in_byte; lia).
  assert (in_byte 20) as Hg by (unfold in_byte; lia).
  assert (in_byte 30) as Hb by (unfold in_byte; lia).
  assert (in_byte 255) as Ha by (unfold in_byte; lia).
  repeat (split; [assumption|]).
  exact (box_blur_keeps_uniform_images 2 2 1 10 20 30 255 H0 H0 H1 Hr Hg Hb Ha).
Defined.

Lemma vignette_keeps_inner_pixels_witness :
  0 <= 5 < width (white 10 10) /\ 0 <= 5 /\ 0 <= 0 < 4 /\
  (0.5 <? vignette_distance (width (white 10 10)) (height (white 10 10)) 5 5)%float = false /\
  data (applyVignetteEffect (white 10 10) 1) !! Z.to_nat ((5 * width (white 10 10) + 5) * 4 + 0)
  = data (white 10 10) !! Z.to_nat ((5 * width (white 10 10) + 5) * 4 + 0).
Proof.
  assert (0 <= 5 < width (white 10 10)) as Hx by (simpl; lia).
  assert (0 <= 5) as Hy by lia. assert (0 <= 0 < 4) as Hc by lia.
  assert ((0.5 <? vignette_distance (width (white 10 10)) (height (white 10 10)) 5 5)%float
          = false) as Hin by reflexivity.
  split; [exact Hx|]. split; [exact Hy|]. split; [exact Hc|]. split; [exact Hin|].
  exact (vignette_keeps_inner_pixels (white 10 10) 1 5 5 0 Hx Hy Hc Hin).
Defined.

Lemma applyBasicAdjustments_contrast_zero_witness :
  Forall in_byte (data orange) /\
  applyBasicAdjustments orange (with_contrast 0 defaultAdjustments) = orange.
Proof.
  split; [exact orange_bytes | exact (applyBasicAdjustments_contrast_zero orange orange_bytes)].
Defined.

Lemma every_promise_is_settled_at_most_once_witness :
  let ex := worker_turn worker_respond
              (fst (executeImageOperation 2 "effects" orange defaultAdjustments
                      (fst (executeImageOperation 1 "effects" grey100 defaultAdjustments
                              idle)))) in
  reachable ex /\ settled_promises ex = [0%nat] /\ pending ex = [1%nat] /\
  NoDup (settled_promises ex) /\ NoDup (pending ex).
Proof.
  cbv zeta.
  set (ex := worker_turn worker_respond _).
  assert (reachable ex) as Hr by (apply reach_answer, reach_call, reach_call, reach_idle).
  split; [exact Hr|]. split; [vm_compute; reflexivity|]. split; [vm_compute; reflexivity|].
  destruct (every_promise_is_settled_at_most_once ex 0%nat Hr) as (Hs & Hp & _).
  split; [exact Hs | exact Hp].
Defined.

Lemma same_id_gets_the_first_answer_witness :
  req_id (basic_request 7 grey100) = req_id (basic_request 7 orange) /\
  worker_turns worker_respond 2 (submit_all [basic_request 7 grey100; basic_request 7 orange] idle)
  = mkExecutor [] []
      [(0%nat, settle (mkResponse 7 (worker_respond (basic_request 7 grey100))));
       (1%nat, settle (mkResponse 7 (worker_respond (basic_request 7 grey100))))] 2.
Proof.
  assert (req_id (basic_request 7 grey100) = req_id (basic_request 7 orange)) as Hid
    by reflexivity.
  split; [exact Hid|].
  exact (proj2 (same_id_gets_the_first_answer worker_respond (basic_request 7 grey100)
                  (basic_request 7 orange) Hid)).
Defined.

Lemma unknown_action_rejects_witness :
  "sharpen"%string <> "basic-adjustments"%string /\
  "sharpen"%string <> "color-adjustments"%string /\
  "sharpen"%string <> "effects"%string /\
  settled (worker_turn
             (fun rq => onmessage steady (req_action rq) (req_image rq) (req_params rq))
             (fst (executeImageOperation 5 "sharpen" grey100 defaultAdjustments idle)))
  = [(0%nat, Rejected "Unknown action: sharpen")].
Proof.
  assert ("sharpen"%string <> "basic-adjustments"%string) as H1 by discriminate.
  assert ("sharpen"%string <> "color-adjustments"%string) as H2 by discriminate.
  assert ("sharpen"%string <> "effects"%string) as H3 by discriminate.
  split; [exact H1|]. split; [exact H2|]. split; [exact H3|].
  exact (proj1 (unknown_action_rejects steady 5 "sharpen" grey100 defaultAdjustments H1 H2 H3)).
Defined.

Lemma failing_worker_falls_back_witness :
  (forall (img : ImageData) (a : ImageAdjustments),
      exists e, broken_worker "basic-adjustments"%string img a = inr e) /\
  snd (updateAdjustments unit true (fun _ _ _ _ => orange) (fun _ => "png"%string)
         (fun img _ => img) (with_hue 180) (with_worker unit broken_worker ready_processor))
  = snd (updateAdjustments unit true (fun _ _ _ _ => orange) (fun _ => "png"%string)
           (fun img _ => img) (with_hue 180) (without_worker unit ready_processor)).
Proof.
  assert (forall (img : ImageData) (a : ImageAdjustments),
             exists e, broken_worker "basic-adjustments"%string img a = inr e) as Hfail
    by (intros img a; eexists; reflexivity).
  split; [exact Hfail|].
  exact (proj1 (failing_worker_falls_back unit true (fun _ _ _ _ => orange)
                  (fun _ => "png"%string) (fun img _ => img) broken_worker (with_hue 180)
                  ready_processor Hfail)).
Defined.




Lemma undo_redo_round_trip_witness :
  0 < 1 < Z.of_nat (length ["A"; "B"; "C"]%string) /\
  ImageEditorTools.handleRedo
    (fst (ImageEditorTools.handleUndo (ImageEditorTools.mkHistory ["A"; "B"; "C"]%string 1)))
  = (ImageEditorTools.mkHistory ["A"; "B"; "C"]%string 1,
     ["A"; "B"; "C"]%string !! Z.to_nat 1).
Proof.
  assert (0 < 1 < Z.of_nat (length ["A"; "B"; "C"]%string)) as Hi by (simpl; lia).
  split; [exact Hi|].
  exact (proj1 (proj2 (proj2 (undo_redo_round_trip ["A"; "B"; "C"]%string 1 Hi)))).
Defined.

Lemma applyChanges_on_full_history_overshoots_witness :
  length ten = 10%nat /\
  ImageEditorTools.handleUndo
    (ImageEditorTools.applyChanges 9 "new" (ImageEditorTools.mkHistory ten 9))
  = (ImageEditorTools.mkHistory (drop 1 ten ++ ["new"%string]) 9, Some "new"%string).
Proof.
  assert (length ten = 10%nat) as Hlen by reflexivity.
  split; [exact Hlen|].
  exact (proj2 (proj2 (proj2 (applyChanges_on_full_history_overshoots ten "new" Hlen)))).
Defined.

Lemma pro_cursor_stays_on_an_entry_witness :
  cursor_ok (ProImageEditor.mkHistory ["A"; "B"]%string 1) /\
  cursor_ok (ProImageEditor.saveToHistory "C" (ProImageEditor.mkHistory ["A"; "B"]%string 1)).
Proof.
  assert (cursor_ok (ProImageEditor.mkHistory ["A"; "B"]%string 1)) as Hok
    by (right; simpl; lia).
  split; [exact Hok|].
  exact (proj1 (pro_cursor_stays_on_an_entry "C" _ Hok)).
Defined.

Lemma simple_pixel_path_frame_witness :
  Forall in_byte (data orange) /\
  Forall in_byte
    (data (SimpleImageProcessor.applyWithPixelManipulation (editorOptions 150 120 80 "sepia")
             orange)).
Proof.
  split; [exact orange_bytes|].
  destruct (simple_pixel_path_frame (editorOptions 150 120 80 "sepia") orange 0 orange_bytes)
    as (_ & _ & _ & _ & H).
  exact H.
Defined.

Lemma simple_pixel_path_neutral_at_defaults_witness :
  Forall in_byte (data orange) /\
  SimpleImageProcessor.applyWithPixelManipulation (editorOptions 100 100 100 "none") orange
  = orange.
Proof.
  split; [exact orange_bytes|].
  exact (simple_pixel_path_neutral_at_defaults orange orange_bytes).
Defined.

Lemma quarter_turns_witness :
  90 mod 90 = 0 /\ -360 < 90 < 360 /\ rotateLeft (rotateRight 90) mod 360 = 90 mod 360.
Proof.
  assert (90 mod 90 = 0) as Hm by reflexivity.
  assert (-360 < 90 < 360) as Hr by lia.
  split; [exact Hm|]. split; [exact Hr|].
  exact (proj1 (proj2 (proj2 (quarter_turns 90 Hm Hr)))).
Defined.

Lemma fallback_is_the_basic_stage_witness :
  (saturation (with_contrast 0 defaultAdjustments) =? 100)%float = true /\
  filterType (with_contrast 0 defaultAdjustments) = "none"%string /\
  (0 <? vignette (with_contrast 0 defaultAdjustments))%float = false /\
  (0 <? sharpen (with_contrast 0 defaultAdjustments))%float = false /\
  mainThreadPixels (fun img _ => img) orange (with_contrast 0 defaultAdjustments)
  = applyBasicAdjustments orange (with_contrast 0 defaultAdjustments).
Proof.
  assert ((saturation (with_contrast 0 defaultAdjustments) =? 100)%float = true) as H1
    by reflexivity.
  assert (filterType (with_contrast 0 defaultAdjustments) = "none"%string) as H2
    by reflexivity.
  assert ((0 <? vignette (with_contrast 0 defaultAdjustments))%float = false) as H3
    by reflexivity.
  assert ((0 <? sharpen (with_contrast 0 defaultAdjustments))%float = false) as H4
    by reflexivity.
  split; [exact H1|]. split; [exact H2|]. split; [exact H3|]. split; [exact H4|].
  exact (fallback_is_the_basic_stage (fun img _ => img) orange
           (with_contrast 0 defaultAdjustments) H1 H2 H3 H4).
Defined.

Lemma main_pixel_frame (d0 : list Z) (p : ImageAdjustments) (m : nat) (d : list Z) :
  (Forall in_byte d -> Forall in_byte (main_pixel p (0 + Z.of_nat m * 4) d)) /\
  (same_alpha d0 d -> same_alpha d0 (main_pixel p (0 + Z.of_nat m * 4) d)) /\
  length (main_pixel p (0 + Z.of_nat m * 4) d) = length d.
Proof.
  unfold main_pixel.
  destruct (negb (clarity p =? 0)%float), (negb (saturation p =? 100)%float);
    (split; [intros H; bytes_loop | split; [intros H; rgb_stores; exact H |]]);
    rewrite !wr_length; reflexivity.
Qed.

(** X28.  With the vignette off, the main-thread fallback keeps the width,
    the height and the number of bytes, leaves every alpha byte as it was
    and keeps every byte within 0..255. *)
Theorem fallback_frame (applyVignette : ImageData -> float -> ImageData) (img : ImageData)
    (p : ImageAdjustments) (k : nat) :
  (0 <? vignette p)%float = false ->
  Forall in_byte (data img) ->
  let out := mainThreadPixels applyVignette img p in
  width out = width img /\ height out = height img /\
  length (data out) = length (data img) /\
  data out !! (4 * k + 3)%nat = data img !! (4 * k + 3)%nat /\
  Forall in_byte (data out).
Proof.
  intros Hvig Hd. cbv zeta. unfold mainThreadPixels. rewrite Hvig.
  set (d1 := for_lt 0 (len (data img)) 4 (main_pixel p) (data img)).
  assert (Forall in_byte d1 /\ same_alpha (data img) d1 /\ length d1 = length (data img))
    as (Hb1 & Ha1 & Hl1).
  { unfold d1.
    apply (for_lt_ind (fun s => Forall in_byte s /\ same_alpha (data img) s /\
                                length s = length (data img))).
    - split; [exact Hd|]. split; [apply same_alpha_refl | reflexivity].
    - intros m s (Hb & Ha & Hl).
      destruct (main_pixel_frame (data img) p m s) as (Fb & Fa & Fl).
      split; [apply Fb, Hb|]. split; [apply Fa, Ha | rewrite Fl; exact Hl]. }
  clearbody d1.
  assert (forall F, Forall in_byte (preset_loop F d1) /\
                    same_alpha (data img) (preset_loop F d1) /\
                    length (preset_loop F d1) = length (data img)) as Hpreset.
  { intros F. split; [apply preset_loop_bytes, Hb1|].
    rewrite preset_loop_is_map_px. split; [apply map_px_same_alpha, Ha1|].
    rewrite map_px_length. exact Hl1. }
  assert (forall d', Forall in_byte d' /\ same_alpha (data img) d' /\
                     length d' = length (data img) ->
          let out := mkImageData (width img) (height img) d' in
          width out = width img /\ height out = height img /\
          length (data out) = length (data img) /\
          data out !! (4 * k + 3)%nat = data img !! (4 * k + 3)%nat /\
          Forall in_byte (data out)) as Hfin.
  { intros d' (B & A & L). cbv zeta. cbn [width height data].
    repeat split; try assumption. apply (A k). }
  destruct (negb (String.eqb (filterType p) "none")).
  - unfold applyFilter. cbn [width height data].
    destruct (String.eqb (filterType p) "grayscale"); [apply Hfin, Hpreset|].
    destruct (String.eqb (filterType p) "sepia"); [apply Hfin, Hpreset|].
    destruct (String.eqb (filterType p) "invert"); [apply Hfin, Hpreset|].
    apply Hfin. auto.
  - apply Hfin. auto.
Qed.

Lemma fallback_frame_witness :
  (0 <? vignette (with_filter "sepia" defaultAdjustments))%float = false /\
  Forall in_byte (data orange) /\
  Forall in_byte
    (data (mainThreadPixels (fun img _ => img) orange (with_filter "sepia" defaultAdjustments))).
Proof.
  assert ((0 <? vignette (with_filter "sepia" defaultAdjustments))%float = false) as Hv
    by reflexivity.
  split; [exact Hv|]. split; [exact orange_bytes|].
  destruct (fallback_frame (fun img _ => img) orange (with_filter "sepia" defaultAdjustments)
              0 Hv orange_bytes) as (_ & _ & _ & _ & H).
  exact H.
Defined.

(** X29.  In [ImageEditorTools] a commit keeps the entries up to the index
    of its closure's render, [c], appends the new image and advances the
    cursor from where it is when the commit runs, [i] (the kept entries
    and the new one within the cap of 10).  The cursor is left on the new
    entry exactly when the closure is from the current render. *)
Theorem commit_truncates_at_the_closure_index (h : list string) (c i : nat) (x : string) :
  (c < length h)%nat ->
  (c + 2 <= 10)%nat ->
  let st' := ImageEditorTools.applyChanges (Z.of_nat c) x
               (ImageEditorTools.mkHistory h (Z.of_nat i)) in
  st' = ImageEditorTools.mkHistory (take (c + 1) h ++ [x]) (Z.of_nat i + 1) /\
  ImageEditorTools.history st' !! (c + 1)%nat = Some x /\
  length (ImageEditorTools.history st') = (c + 2)%nat /\
  (ImageEditorTools.historyIndex st' = Z.of_nat (c + 1) <-> c = i).
Proof.
  intros Hc Hcap. cbv zeta.
  assert (length (take (c + 1) h) = (c + 1)%nat) as Hlen
    by (rewrite length_take; lia).
  assert (length (take (c + 1) h ++ [x]) = (c + 2)%nat) as Hlen'
    by (rewrite length_app, Hlen; simpl; lia).
  assert (ImageEditorTools.applyChanges (Z.of_nat c) x
            (ImageEditorTools.mkHistory h (Z.of_nat i))
          = ImageEditorTools.mkHistory (take (c + 1) h ++ [x]) (Z.of_nat i + 1)) as Heq.
  { unfold ImageEditorTools.applyChanges. simpl.
    replace (Z.of_nat c + 1) with (Z.of_nat (c + 1)) by lia.
    rewrite slice0_take.
    destruct (Nat.ltb_spec 10 (length (take (c + 1) h ++ [x]))) as [Hlt|_];
      [lia | reflexivity]. }
  rewrite Heq. simpl. split; [reflexivity|]. split; [|split].
  - rewrite lookup_app_r by lia. rewrite Hlen, Nat.sub_diag. reflexivity.
  - exact Hlen'.
  - lia.
Qed.

Lemma commit_truncates_at_the_closure_index_witness :
  (2 < length ["A"; "B"; "C"]%string)%nat /\
  (2 + 2 <= 10)%nat /\
  ImageEditorTools.applyChanges 2 "D" (ImageEditorTools.mkHistory ["A"; "B"; "C"]%string 1)
  = ImageEditorTools.mkHistory ["A"; "B"; "C"; "D"]%string 2.
Proof.
  assert (2 < length ["A"; "B"; "C"]%string)%nat as Hc by (simpl; lia).
  assert (2 + 2 <= 10)%nat as Hcap by lia.
  split; [exact Hc|]. split; [exact Hcap|].
  exact (proj1 (commit_truncates_at_the_closure_index ["A"; "B"; "C"]%string 2 1 "D" Hc Hcap)).
Defined.

(** X30.  In [ProImageEditor], [saveToHistory] with the cursor on entry [i]
    of a history of any length discards the entries after the cursor,
    appends the new image and moves the cursor onto it. *)
Theorem saveToHistory_truncates_after_the_cursor (h : list string) (i : nat) (x : string) :
  (i < length h)%nat ->
  let st' := ProImageEditor.saveToHistory x (ProImageEditor.mkHistory h (Z.of_nat i)) in
  st' = ProImageEditor.mkHistory (take (i + 1) h ++ [x]) (Z.of_nat i + 1) /\
  ProImageEditor.history st' !! Z.to_nat (ProImageEditor.historyIndex st') = Some x /\
  length (ProImageEditor.history st') = (i + 2)%nat.
Proof.
  intros Hi. cbv zeta.
  assert (length (take (i + 1) h) = (i + 1)%nat) as Hlen
    by (rewrite length_take; lia).
  assert (ProImageEditor.saveToHistory x (ProImageEditor.mkHistory h (Z.of_nat i))
          = ProImageEditor.mkHistory (take (i + 1) h ++ [x]) (Z.of_nat i + 1)) as Heq.
  { unfold ProImageEditor.saveToHistory. simpl.
    destruct (Z.ltb_spec (Z.of_nat i) (Z.of_nat (length h) - 1)) as [_|Hge].
    - replace (Z.of_nat i + 1) with (Z.of_nat (i + 1)) by lia.
      rewrite slice0_take. f_equal. rewrite length_app, Hlen. simpl. lia.
    - assert (i + 1 = length h)%nat as Hlast by lia.
      rewrite Hlast, firstn_all. f_equal. rewrite length_app. simpl. lia. }
  rewrite Heq. simpl. split; [reflexivity|]. split.
  - replace (Z.to_nat (Z.of_nat i + 1)) with (i + 1)%nat by lia.
    rewrite lookup_app_r by lia. rewrite Hlen, Nat.sub_diag. reflexivity.
  - rewrite length_app, Hlen. simpl. lia.
Qed.

Lemma saveToHistory_truncates_after_the_cursor_witness :
  (0 < length ["A"; "B"]%string)%nat /\
  ProImageEditor.saveToHistory "C" (ProImageEditor.mkHistory ["A"; "B"]%string 0)
  = ProImageEditor.mkHistory ["A"; "C"]%string 1.
Proof.
  assert (0 < length ["A"; "B"]%string)%nat as Hi by (simpl; lia).
  split; [exact Hi|].
  exact (proj1 (saveToHistory_truncates_after_the_cursor ["A"; "B"]%string 0 "C" Hi)).
Defined.
